(** * wechat_vfs: a read-only decrypting SQLite VFS

    Shallow embedding of [windows/runner/wechat_vfs.cpp]: the key registry
    ([g_encryption_keys], [normalize_path], [wechat_vfs_register_keys],
    [wechat_vfs_unregister_keys], [wechat_open]) and the file methods
    ([wechat_read], [wechat_write], [wechat_truncate], [wechat_file_size]).

    Conventions.
    - [int] and [sqlite3_int64] values are integers of [Z]; every cast and every
      operation that can leave the type's range is wrapped by [to_int] /
      [to_int64].
    - An [unsigned char] is an integer of [Z]; a buffer is a [list Z], a pointer
      into it is an offset.
    - The platform file ([real_file->pMethods]), Windows CNG, the C runtime's
      [sscanf_s] and the content of fresh heap memory are collaborators of the
      file: they are variables of the sections below. *)

From stdpp Require Import gmap strings list.
From Stdlib Require Import ZArith Lia Ascii.

Local Open Scope Z_scope.

(** ** Constants *)

Definition SQLITE_OK : Z := 0.
Definition SQLITE_ERROR : Z := 1.
Definition SQLITE_READONLY : Z := 8.

Definition PAGE_SIZE : Z := 4096.
Definition SALT_SIZE : Z := 16.
Definition IV_SIZE : Z := 16.
Definition RESERVE_SIZE : Z := 80.

(** ** C integers *)

(** Conversion to [int] (32 bits, two's complement). *)
Definition to_int (z : Z) : Z := (z + 2 ^ 31) mod 2 ^ 32 - 2 ^ 31.

(** Conversion to [sqlite3_int64] ([long long]). *)
Definition to_int64 (z : Z) : Z := (z + 2 ^ 63) mod 2 ^ 64 - 2 ^ 63.

(** ** Memory

    [sub_bytes m off len] is what a reader of [len] bytes at [m + off] sees;
    [store m off data] is [m] after [data] was written at [m + off].  Inside
    the buffer both are exact; an access that runs past the end of [m] is
    undefined in C, here the read stops at the end and the write extends the
    list.  A negative length, which C converts to a huge [size_t], moves
    nothing here. *)

Definition sub_bytes (m : list Z) (off len : Z) : list Z :=
  take (Z.to_nat len) (drop (Z.to_nat off) m).

Definition store (m : list Z) (off : Z) (data : list Z) : list Z :=
  take (Z.to_nat off) m ++ data ++ drop (Z.to_nat off + length data)%nat m.

(** [memcpy(dst + d, src + s, n)] *)
Definition memcpy (dst : list Z) (d : Z) (src : list Z) (s n : Z) : list Z :=
  store dst d (sub_bytes src s n).

(** [memset(dst + d, c, n)] *)
Definition memset (dst : list Z) (d c n : Z) : list Z :=
  store dst d (replicate (Z.to_nat n) c).

(** ** Key records and the registry *)

Record EncryptionKeys := {
  encKey : list Z;
  macKey : list Z
}.

(** One character of [normalize_path]: the two [if]s of the loop body, in
    order. *)
Definition normalize_char (c : ascii) : ascii :=
  let c1 := if Ascii.eqb c "\"%char then "/"%char else c in
  if (N.leb 65 (N_of_ascii c1) && N.leb (N_of_ascii c1) 90)%bool
  then ascii_of_N (N_of_ascii c1 - 65 + 97)
  else c1.

Fixpoint normalize_path (path : string) : string :=
  match path with
  | EmptyString => EmptyString
  | String c rest => String (normalize_char c) (normalize_path rest)
  end.

Section KeyRegistry.

(** [scan_2x s] is the content of the local [byte] after
    [sscanf_s(s, "%2x", &byte)], where [s] is the text at [hex + i]; the
    local is not initialised, so the value is an arbitrary one when nothing
    is converted. *)
Variable scan_2x : string -> Z.

(** [hex_to_bytes]: one scan every two characters, the result cast to
    [unsigned char]. *)
Fixpoint hex_to_bytes (hex : string) : list Z :=
  match hex with
  | EmptyString => []
  | String _ EmptyString => [scan_2x hex mod 256]
  | String _ (String _ rest) => (scan_2x hex mod 256) :: hex_to_bytes rest
  end.

Definition wechat_vfs_register_keys (g_encryption_keys : gmap string EncryptionKeys)
    (db_path enc_key_hex mac_key_hex : string) : gmap string EncryptionKeys :=
  let normalized := normalize_path db_path in
  let keys := {| encKey := hex_to_bytes enc_key_hex;
                 macKey := hex_to_bytes mac_key_hex |} in
  <[normalized := keys]> g_encryption_keys.

Definition wechat_vfs_unregister_keys (g_encryption_keys : gmap string EncryptionKeys)
    (db_path : string) : gmap string EncryptionKeys :=
  let normalized := normalize_path db_path in
  delete normalized g_encryption_keys.

Definition wechat_vfs_get_callback_count
    (g_encryption_keys : gmap string EncryptionKeys) : Z :=
  to_int (Z.of_nat (size g_encryption_keys)).

End KeyRegistry.

(** ** The platform file and the open handle *)

(** The methods of [real_file->pMethods] the shim calls, over a platform file
    of type [F].  [xRead f iAmt iOfst] is the status and the bytes the method
    delivers at the pointer it is given (at most [iAmt] of them are stored);
    reading does not change the file. *)
Record sqlite3_io_methods (F : Type) := {
  xRead : F -> Z -> Z -> Z * list Z;
  xWrite : F -> list Z -> Z -> Z -> Z * F;
  xTruncate : F -> Z -> Z * F;
  xFileSize : F -> Z * Z
}.
Arguments xRead {F}.
Arguments xWrite {F}.
Arguments xTruncate {F}.
Arguments xFileSize {F}.

(** [struct WeChatFile].  [keys] is the record the pointer designates at
    the time of the call ([None] for [nullptr]).  The pointer leads into the
    registry's map node (line 359), so the record a later call finds there is
    the one the registry holds by then: [handle_after] below gives the handle
    as a call finds it after further registry calls.  [wechat_read] also
    tests a member [decrypt_cb] that the struct does not declare and that
    nothing assigns: [decrypt_cb] is [true] when that member is not null. *)
Record WeChatFile (F : Type) := {
  real_file : F;
  path : string;
  keys : option EncryptionKeys;
  decrypt_cb : bool
}.
Arguments real_file {F}.
Arguments path {F}.
Arguments keys {F}.
Arguments decrypt_cb {F}.

(** The lookup of [wechat_open] (source lines 357-359): the record registered
    under the normalized name, if any. *)
Definition find_keys (g_encryption_keys : gmap string EncryptionKeys)
    (zName : string) : option EncryptionKeys :=
  let normalized := normalize_path zName in
  g_encryption_keys !! normalized.

Section Open.

Context {F : Type}.

(** [g_default_vfs->xOpen(g_default_vfs, zName, p->real_file, flags,
    pOutFlags)]: the status and the platform file it opened. *)
Variable default_xOpen : option string -> Z -> Z * F.

(** [wechat_open]: [None] when the platform open fails (the handle is not
    usable), otherwise the handle; [cb] is the content of the undeclared
    member, which the function leaves as it finds it. *)
Definition wechat_open (g_encryption_keys : gmap string EncryptionKeys)
    (cb : bool) (zName : option string) (flags : Z) : Z * option (WeChatFile F) :=
  let '(rc, real) := default_xOpen zName flags in
  if negb (rc =? SQLITE_OK) then (rc, None)
  else
    match zName with
    | Some name =>
        (SQLITE_OK, Some {| real_file := real; path := name;
                            keys := find_keys g_encryption_keys name;
                            decrypt_cb := cb |})
    | None =>
        (SQLITE_OK, Some {| real_file := real; path := EmptyString;
                            keys := None; decrypt_cb := cb |})
    end.

End Open.

Section WriteSide.

Context {F : Type}.
Variable io : sqlite3_io_methods F.

(** The handle after the call is part of the result: neither function
    touches it. *)
Definition wechat_write (p : WeChatFile F) (zBuf : list Z) (iAmt iOfst : Z)
    : Z * WeChatFile F :=
  (SQLITE_READONLY, p).

Definition wechat_truncate (p : WeChatFile F) (size : Z) : Z * WeChatFile F :=
  (SQLITE_READONLY, p).

(** Status and [*pSize]. *)
Definition wechat_file_size (p : WeChatFile F) : Z * Z :=
  xFileSize io (real_file p).

End WriteSide.

(** ** Windows CNG

    The four CNG calls of [aes_decrypt_cbc], each reduced to what the function
    observes: whether the status is a success and, for [BCryptDecrypt] given
    the key, the input and the initialization vector, the bytes it writes to
    [pbOutput] and the content of the [pbIV] buffer afterwards ([pbIV] is an
    in/out parameter: CNG documents that the call modifies that buffer). *)
Record CNG := {
  BCryptOpenAlgorithmProvider : bool;
  BCryptSetProperty : bool;
  BCryptGenerateSymmetricKey : list Z -> bool;
  BCryptDecrypt : list Z -> list Z -> list Z -> bool * list Z * list Z
}.

(** ** Thread-local page buffers *)

Record tls := {
  g_encrypted_buffer : option (list Z);
  g_decrypted_buffer : option (list Z)
}.

(** ** What a read does to its collaborators, in order *)

Inductive event :=
  (** pass-through [xRead(real_file, zBuf, iAmt, iOfst)] and its status *)
  | EvForward (iAmt iOfst rc : Z)
  (** [xRead(real_file, g_encrypted_buffer, iAmt, iOfst)] for a page, and its
      status *)
  | EvRead (page_num iAmt iOfst rc : Z)
  (** [aes_decrypt_cbc] for a page: the encrypted buffer at the call, the
      bytes at [encrypted], the key, the bytes at [iv], and the result *)
  | EvDecrypt (page_num : Z) (scratch encrypted key iv : list Z) (ok : bool)
  (** [memcpy(output + bytes_written, g_decrypted_buffer + copy_offset,
      bytes_to_copy)] for a page, with the decrypted buffer at the call *)
  | EvCopy (page_num : Z) (decrypted : list Z)
           (bytes_written copy_offset bytes_to_copy : Z).

(** The state of the page loop of [wechat_read]. *)
Record loop_state := {
  ls_enc : list Z;        (* g_encrypted_buffer *)
  ls_dec : list Z;        (* g_decrypted_buffer *)
  ls_out : list Z;        (* the caller's buffer, [output] *)
  ls_written : Z;         (* bytes_written *)
  ls_log : list event
}.

Inductive outcome :=
  | Continue (st : loop_state)
  | Return (rc : Z) (st : loop_state).

(** What the decryption block of the loop body leaves. *)
Record page_result := {
  pr_ok : bool;
  pr_enc : list Z;        (* g_encrypted_buffer *)
  pr_dec : list Z;        (* g_decrypted_buffer *)
  pr_events : list event
}.

Record read_result := {
  rr_rc : Z;
  rr_zBuf : list Z;
  rr_tls : tls;
  rr_log : list event
}.

(** The page boundaries [wechat_read] computes from its arguments:
    [start_page], [end_page] and [start_offset]. *)
Definition first_page (iOfst : Z) : Z := to_int (iOfst `quot` PAGE_SIZE).
Definition last_page (iAmt iOfst : Z) : Z :=
  to_int (to_int64 (iOfst + iAmt - 1) `quot` PAGE_SIZE).
Definition first_skip (iOfst : Z) : Z := to_int (iOfst `rem` PAGE_SIZE).

Section Read.

Context {F : Type}.
Variable io : sqlite3_io_methods F.
Variable cng : CNG.

(** Content of the memory [new unsigned char[PAGE_SIZE]] returns, for the
    encrypted ([false]) and the decrypted ([true]) buffer. *)
Variable fresh : bool -> nat -> Z.

Definition new_uchar_array (which : bool) (n : Z) : list Z :=
  fresh which <$> seq 0 (Z.to_nat n).

Definition ensure_buffers_allocated (t : tls) : tls :=
  {| g_encrypted_buffer :=
       match g_encrypted_buffer t with
       | None => Some (new_uchar_array false PAGE_SIZE)
       | Some b => Some b
       end;
     g_decrypted_buffer :=
       match g_decrypted_buffer t with
       | None => Some (new_uchar_array true PAGE_SIZE)
       | Some b => Some b
       end |}.

(** [real_file->pMethods->xRead(real_file, buf, iAmt, iOfst)]: the status
    and [buf] afterwards. *)
Definition call_xRead (f : F) (buf : list Z) (iAmt iOfst : Z) : Z * list Z :=
  let '(rc, data) := xRead io f iAmt iOfst in
  (rc, store buf 0 (take (Z.to_nat iAmt) data)).

(** [aes_decrypt_cbc(mem + encrypted, encrypted_len, key, mem + iv,
    decrypted)]: the result, [mem] afterwards and [decrypted] afterwards.  CNG
    takes 32 bytes at [key] and [IV_SIZE] bytes at [iv], writes at most
    [encrypted_len] bytes to [decrypted], and leaves its own content in the
    [IV_SIZE] bytes at [iv].  [key] is the whole vector: when it holds fewer
    than 32 bytes the code reads past its end, which is undefined; as for
    every read past the end, the model hands over the bytes there are. *)
Definition aes_decrypt_cbc (mem : list Z) (encrypted encrypted_len : Z)
    (key : list Z) (iv : Z) (decrypted : list Z) : bool * list Z * list Z :=
  if negb (BCryptOpenAlgorithmProvider cng) then (false, mem, decrypted)
  else if negb (BCryptSetProperty cng) then (false, mem, decrypted)
  else if negb (BCryptGenerateSymmetricKey cng (take 32 key)) then (false, mem, decrypted)
  else
    let '(status, output, iv_after) :=
      BCryptDecrypt cng (take 32 key) (sub_bytes mem encrypted encrypted_len)
                    (sub_bytes mem iv IV_SIZE) in
    (status,
     store mem iv (take (Z.to_nat IV_SIZE) iv_after),
     store decrypted 0 (take (Z.to_nat encrypted_len) output)).

(** The decryption block of the loop body (source lines 222-252): whether it
    went through, [g_encrypted_buffer] and [g_decrypted_buffer] afterwards,
    and the engine call it made. *)
Definition decrypt_page (k : option EncryptionKeys) (page_num : Z)
    (enc dec : list Z) : page_result :=
  match k with
  | None =>
      {| pr_ok := true; pr_enc := enc; pr_dec := memcpy dec 0 enc 0 PAGE_SIZE;
         pr_events := [] |}
  | Some ks =>
      let offset := if page_num =? 0 then SALT_SIZE else 0 in
      let iv := PAGE_SIZE - RESERVE_SIZE in
      let encrypted_len := PAGE_SIZE - RESERVE_SIZE - offset in
      let '(ok, enc1, dec1) :=
        aes_decrypt_cbc enc offset encrypted_len (encKey ks) iv dec in
      let ev := EvDecrypt page_num enc (sub_bytes enc offset encrypted_len)
                          (take 32 (encKey ks)) (sub_bytes enc iv IV_SIZE) ok in
      if negb ok then
        {| pr_ok := false; pr_enc := enc1; pr_dec := dec1; pr_events := [ev] |}
      else
        let dec2 :=
          memcpy dec1 encrypted_len enc1 (PAGE_SIZE - RESERVE_SIZE) RESERVE_SIZE in
        let dec3 :=
          if page_num =? 0
          then memset dec2 (encrypted_len + RESERVE_SIZE) 0 SALT_SIZE
          else dec2 in
        {| pr_ok := true; pr_enc := enc1; pr_dec := dec3; pr_events := [ev] |}
  end.

(** One turn of the loop of [wechat_read]. *)
Definition read_page (p : WeChatFile F) (iAmt start_page start_offset : Z)
    (page_num : Z) (st : loop_state) : outcome :=
  let page_offset := to_int64 (page_num * PAGE_SIZE) in
  let '(rc, enc) := call_xRead (real_file p) (ls_enc st) PAGE_SIZE page_offset in
  let log1 := ls_log st ++ [EvRead page_num PAGE_SIZE page_offset rc] in
  if negb (rc =? SQLITE_OK) then
    Return rc {| ls_enc := enc; ls_dec := ls_dec st; ls_out := ls_out st;
                 ls_written := ls_written st; ls_log := log1 |}
  else
    let d := decrypt_page (keys p) page_num enc (ls_dec st) in
    let enc := pr_enc d in
    let dec := pr_dec d in
    let log2 := log1 ++ pr_events d in
    if negb (pr_ok d) then
      Return SQLITE_ERROR
             {| ls_enc := enc; ls_dec := dec; ls_out := ls_out st;
                ls_written := ls_written st; ls_log := log2 |}
    else
      let copy_offset := if page_num =? start_page then start_offset else 0 in
      let bytes_in_page := to_int (PAGE_SIZE - copy_offset) in
      let bytes_remaining := to_int (iAmt - ls_written st) in
      let bytes_to_copy :=
        if bytes_in_page <? bytes_remaining then bytes_in_page else bytes_remaining in
      Continue
        {| ls_enc := enc; ls_dec := dec;
           ls_out := memcpy (ls_out st) (ls_written st) dec copy_offset bytes_to_copy;
           ls_written := to_int (ls_written st + bytes_to_copy);
           ls_log := log2 ++ [EvCopy page_num dec (ls_written st)
                                     copy_offset bytes_to_copy] |}.

(** The loop over [pages], the page numbers from [start_page] to [end_page]:
    a [return] in the body ends it. *)
Fixpoint read_pages (p : WeChatFile F) (iAmt start_page start_offset : Z)
    (pages : list Z) (st : loop_state) : outcome :=
  match pages with
  | [] => Continue st
  | page_num :: rest =>
      match read_page p iAmt start_page start_offset page_num st with
      | Continue st' => read_pages p iAmt start_page start_offset rest st'
      | Return rc st' => Return rc st'
      end
  end.

(** The pages [for (page_num = start_page; page_num <= end_page;
    page_num++)] visits.  (With [end_page = INT_MAX] the increment
    overflows, which is undefined; the list ends at [end_page].) *)
Definition page_range (start_page end_page : Z) : list Z :=
  seqZ start_page (end_page - start_page + 1).

(** The loop state on entry: the thread's buffers, nothing written. *)
Definition start_state (t : tls) (zBuf : list Z) : loop_state :=
  let t1 := ensure_buffers_allocated t in
  {| ls_enc := default [] (g_encrypted_buffer t1);
     ls_dec := default [] (g_decrypted_buffer t1);
     ls_out := zBuf; ls_written := 0; ls_log := [] |}.

(** What the caller and the thread see when the function returns [rc]. *)
Definition finish (rc : Z) (st : loop_state) : read_result :=
  {| rr_rc := rc; rr_zBuf := ls_out st;
     rr_tls := {| g_encrypted_buffer := Some (ls_enc st);
                  g_decrypted_buffer := Some (ls_dec st) |};
     rr_log := ls_log st |}.

Definition wechat_read (p : WeChatFile F) (t : tls) (zBuf : list Z)
    (iAmt iOfst : Z) : read_result :=
  if negb (decrypt_cb p) then
    let '(rc, zBuf') := call_xRead (real_file p) zBuf iAmt iOfst in
    {| rr_rc := rc; rr_zBuf := zBuf'; rr_tls := t;
       rr_log := [EvForward iAmt iOfst rc] |}
  else
    let start_page := first_page iOfst in
    let end_page := last_page iAmt iOfst in
    let start_offset := first_skip iOfst in
    match read_pages p iAmt start_page start_offset
                     (page_range start_page end_page) (start_state t zBuf) with
    | Continue st => finish SQLITE_OK st
    | Return rc st => finish rc st
    end.

End Read.

(** * Vocabulary of the properties *)

(** ** Path spellings

    Two characters spell the same thing when they are equal, are both path
    separators, or are the same ASCII letter in either case; two paths when
    they do so character by character. *)

Definition is_separator (c : ascii) : bool :=
  (Ascii.eqb c "\"%char || Ascii.eqb c "/"%char)%bool.

(** Position in the alphabet of an ASCII letter. *)
Definition letter_index (c : ascii) : option N :=
  let n := N_of_ascii c in
  if (N.leb 65 n && N.leb n 90)%bool then Some (n - 65)%N
  else if (N.leb 97 n && N.leb n 122)%bool then Some (n - 97)%N
  else None.

Definition same_char (a b : ascii) : bool :=
  (Ascii.eqb a b
   || (is_separator a && is_separator b)
   || match letter_index a, letter_index b with
      | Some i, Some j => N.eqb i j
      | _, _ => false
      end)%bool.

Fixpoint same_spelling (s1 s2 : string) : bool :=
  match s1, s2 with
  | EmptyString, EmptyString => true
  | String a r1, String b r2 => (same_char a b && same_spelling r1 r2)%bool
  | _, _ => false
  end.

Definition all_ascii : list ascii := ascii_of_nat <$> seq 0 256.

(** ** Buffers and requests *)

(** A page buffer, once allocated, holds [PAGE_SIZE] bytes. *)
Definition buffer_ok (b : option (list Z)) : Prop :=
  match b with
  | Some l => length l = Z.to_nat PAGE_SIZE
  | None => True
  end.

Definition tls_ok (t : tls) : Prop :=
  buffer_ok (g_encrypted_buffer t) ∧ buffer_ok (g_decrypted_buffer t).

Definition buffers_ok (st : loop_state) : Prop :=
  length (ls_enc st) = Z.to_nat PAGE_SIZE ∧ length (ls_dec st) = Z.to_nat PAGE_SIZE.

Definition outcome_state (o : outcome) : loop_state :=
  match o with
  | Continue st => st
  | Return _ st => st
  end.

(** The arguments of a read for which no conversion of [wechat_read] wraps:
    a non-negative offset, a positive [int] amount, and a last page number
    that is an [int]. *)
Definition request_ok (iAmt iOfst : Z) : Prop :=
  0 <= iOfst ∧ 0 < iAmt < 2 ^ 31 ∧ iOfst + iAmt <= 2 ^ 43.

(** A caller's buffer of [n] bytes. *)
Definition zeros (n : Z) : list Z := replicate (Z.to_nat n) 0.

(** ** The log of a read *)

(** For each engine call of a log: the bytes passed as initialization vector,
    and the last [IV_SIZE] bytes of the encrypted buffer at that call. *)
Definition iv_and_tail (ev : event) : option (list Z * list Z) :=
  match ev with
  | EvDecrypt _ scratch _ _ iv _ =>
      Some (iv, drop (Z.to_nat (PAGE_SIZE - IV_SIZE)) scratch)
  | _ => None
  end.

(** The bytes the copies of a log put into the caller's buffer, in order. *)
Definition event_chunk (ev : event) : list Z :=
  match ev with
  | EvCopy _ decrypted _ copy_offset bytes_to_copy =>
      sub_bytes decrypted copy_offset bytes_to_copy
  | _ => []
  end.

Definition log_chunks (log : list event) : list Z :=
  concat (event_chunk <$> log).

(** What the loop body guarantees of the entries it logs: the engine is given
    the ciphertext region and the initialization vector of a whole encrypted
    page, and the copy into the caller's buffer is taken from a whole
    decrypted page. *)
Definition event_ok (ev : event) : Prop :=
  match ev with
  | EvDecrypt page_num scratch encrypted _ iv _ =>
      let offset := if page_num =? 0 then SALT_SIZE else 0 in
      length scratch = Z.to_nat PAGE_SIZE
      ∧ encrypted = sub_bytes scratch offset (PAGE_SIZE - RESERVE_SIZE - offset)
      ∧ iv = sub_bytes scratch (PAGE_SIZE - RESERVE_SIZE) IV_SIZE
  | EvCopy _ decrypted _ _ _ => length decrypted = Z.to_nat PAGE_SIZE
  | _ => True
  end.


(** [bytes_written] when the loop reaches page [page_num]: nothing at the
    first page, afterwards everything from the offset to the start of the
    page, and never more than the amount. *)
Definition written_before (iAmt iOfst page_num : Z) : Z :=
  Z.min iAmt (Z.max 0 (page_num * PAGE_SIZE - iOfst)).

(** What the loop body guarantees of a copy into the caller's buffer. *)
Definition copy_ok (iAmt iOfst : Z) (ev : event) : Prop :=
  match ev with
  | EvCopy page_num _ bytes_written copy_offset bytes_to_copy =>
      first_page iOfst <= page_num <= last_page iAmt iOfst
      ∧ bytes_written = written_before iAmt iOfst page_num
      ∧ copy_offset = (if page_num =? first_page iOfst then first_skip iOfst else 0)
      ∧ bytes_to_copy = Z.min (PAGE_SIZE - copy_offset) (iAmt - bytes_written)
      ∧ 0 < bytes_to_copy
      ∧ bytes_written + bytes_to_copy = written_before iAmt iOfst (page_num + 1)
  | _ => True
  end.

(** The loop state is as it must be when the loop reaches [page_num]: the
    caller's buffer holds the bytes copied so far, then what it held. *)
Definition reached (zBuf : list Z) (iAmt iOfst page_num : Z) (st : loop_state) : Prop :=
  buffers_ok st
  ∧ ls_written st = written_before iAmt iOfst page_num
  ∧ ls_out st = log_chunks (ls_log st) ++ drop (Z.to_nat (ls_written st)) zBuf
  ∧ length (log_chunks (ls_log st)) = Z.to_nat (ls_written st)
  ∧ Forall (copy_ok iAmt iOfst) (ls_log st).

(** ** Reading a range in several requests *)

(** What the collaborators promise on success: the platform read delivers
    the whole amount, and the cipher (cipher block chaining without padding)
    as many bytes as it is given. *)
Definition xRead_exact {F : Type} (io : sqlite3_io_methods F) (f : F) : Prop :=
  forall iAmt iOfst data,
    xRead io f iAmt iOfst = (SQLITE_OK, data) -> length data = Z.to_nat iAmt.

Definition decrypt_exact (cng : CNG) : Prop :=
  forall key input iv output iv_after,
    BCryptDecrypt cng key input iv = (true, output, iv_after) ->
    length output = length input.

Definition sumZ (l : list Z) : Z := foldr Z.add 0 l.

(** The amounts of consecutive requests that start at [iOfst], none of which
    makes a conversion of [wechat_read] wrap. *)
Definition split_ok (iOfst : Z) (amounts : list Z) : Prop :=
  0 <= iOfst
  ∧ Forall (fun iAmt => 0 < iAmt < 2 ^ 31) amounts
  ∧ iOfst + sumZ amounts <= 2 ^ 43.

Section Reference.

Context {F : Type}.
Variable io : sqlite3_io_methods F.
Variable cng : CNG.
Variable fresh : bool -> nat -> Z.
Variable p : WeChatFile F.

(** A whole page read from the platform file and decrypted on its own, into
    a buffer of its own: [None] when the page cannot be read or
    decrypted. *)
Definition plain_page (page_num : Z) : option (list Z) :=
  let '(rc, data) := xRead io (real_file p) PAGE_SIZE (page_num * PAGE_SIZE) in
  if rc =? SQLITE_OK then
    let d := decrypt_page cng (keys p) page_num data (zeros PAGE_SIZE) in
    if pr_ok d then Some (pr_dec d) else None
  else None.

(** The byte of the decrypted file at address [a]. *)
Definition byte_at (a : Z) : option Z :=
  pg ← plain_page (a / PAGE_SIZE); pg !! Z.to_nat (a mod PAGE_SIZE).

(** [bs] are the bytes of the decrypted file from [iOfst] on. *)
Definition bytes_from (iOfst : Z) (bs : list Z) : Prop :=
  Forall2 (fun a b => byte_at a = Some b) (seqZ iOfst (Z.of_nat (length bs))) bs.

(** Some byte of the range is on a page that cannot be read or decrypted. *)
Definition unreadable (iOfst n : Z) : Prop :=
  exists a, iOfst <= a < iOfst + n ∧ byte_at a = None.

(** A caller that reads a range in consecutive requests of the given
    amounts, each into a buffer of its own, on one thread: the bytes it
    gets, or [None] when a request fails. *)
Fixpoint read_split (t : tls) (iOfst : Z) (amounts : list Z) : option (list Z) :=
  match amounts with
  | [] => Some []
  | iAmt :: rest =>
      let r := wechat_read io cng fresh p t (zeros iAmt) iAmt iOfst in
      if rr_rc r =? SQLITE_OK then
        match read_split (rr_tls r) (iOfst + iAmt) rest with
        | Some bs => Some (take (Z.to_nat iAmt) (rr_zBuf r) ++ bs)
        | None => None
        end
      else None
  end.

End Reference.

(** * A concrete platform for the examples

    A file held in memory, read the way the platform reads (a read past the
    end is a short read, zero-filled), two stand-ins for the cipher, a scanner
    of two hexadecimal digits, and zeroed fresh memory. *)

Definition SQLITE_IOERR_SHORT_READ : Z := 522.

Definition mem_xRead (f : list Z) (iAmt iOfst : Z) : Z * list Z :=
  let got := sub_bytes f iOfst iAmt in
  if Z.of_nat (length got) <? iAmt
  then (SQLITE_IOERR_SHORT_READ, got ++ replicate (Z.to_nat iAmt - length got) 0)
  else (SQLITE_OK, got).

Definition mem_io : sqlite3_io_methods (list Z) :=
  {| xRead := mem_xRead;
     xWrite := fun f buf iAmt iOfst =>
                 (SQLITE_OK, store f iOfst (take (Z.to_nat iAmt) buf));
     xTruncate := fun f size => (SQLITE_OK, take (Z.to_nat size) f);
     xFileSize := fun f => (SQLITE_OK, Z.of_nat (length f)) |}.

Definition mem_xOpen (f : list Z) (zName : option string) (flags : Z) : Z * list Z :=
  (SQLITE_OK, f).

(** Every byte of the input xor the first byte of the key xor the first byte
    of the initialization vector; the vector is left as it was. *)
Definition xor_cng : CNG :=
  {| BCryptOpenAlgorithmProvider := true;
     BCryptSetProperty := true;
     BCryptGenerateSymmetricKey := fun _ => true;
     BCryptDecrypt := fun key input iv =>
       (true, (fun b => Z.lxor b (Z.lxor (hd 0 key) (hd 0 iv))) <$> input, iv) |}.

(** The same cipher with the chaining CNG documents for its vector buffer:
    after the call the buffer holds the last block of the input. *)
Definition chaining_cng : CNG :=
  {| BCryptOpenAlgorithmProvider := true;
     BCryptSetProperty := true;
     BCryptGenerateSymmetricKey := fun _ => true;
     BCryptDecrypt := fun key input iv =>
       (true, (fun b => Z.lxor b (Z.lxor (hd 0 key) (hd 0 iv))) <$> input,
        drop (length input - Z.to_nat IV_SIZE) input) |}.

(** The plaintext [xor_cng] gives for the ciphertext region of an encrypted
    page. *)
Definition xor_plain (ks : EncryptionKeys) (page_num : Z) (enc : list Z) : list Z :=
  let offset := if page_num =? 0 then SALT_SIZE else 0 in
  (BCryptDecrypt xor_cng (take 32 (encKey ks))
     (sub_bytes enc offset (PAGE_SIZE - RESERVE_SIZE - offset))
     (sub_bytes enc (PAGE_SIZE - RESERVE_SIZE) IV_SIZE)).1.2.

Definition zero_fresh (which : bool) (i : nat) : Z := 0.

Definition hex_digit (c : ascii) : Z :=
  let n := Z.of_N (N_of_ascii c) in
  if (48 <=? n) && (n <=? 57) then n - 48
  else if (97 <=? n) && (n <=? 102) then n - 87
  else if (65 <=? n) && (n <=? 70) then n - 55
  else 0.

Definition scan_hex2 (s : string) : Z :=
  match s with
  | String a (String b _) => 16 * hex_digit a + hex_digit b
  | String a EmptyString => hex_digit a
  | EmptyString => 0
  end.

(** A file of two pages; the byte at address [a] is [a mod 251]. *)
Definition two_pages : list Z := (fun n => Z.of_nat n mod 251) <$> seq 0 (Z.to_nat 8192).

Definition page0 : list Z := take (Z.to_nat PAGE_SIZE) two_pages.
Definition page1 : list Z := drop (Z.to_nat PAGE_SIZE) two_pages.

(** A file of 1024 bytes, smaller than a page of the shim. *)
Definition small_file : list Z := take (Z.to_nat 1024) two_pages.

(** A file of one page and a half: its second page cannot be read whole. *)
Definition torn_file : list Z := take (Z.to_nat 6000) two_pages.

Definition sample_keys : EncryptionKeys :=
  {| encKey := replicate 32 7; macKey := replicate 32 9 |}.

Definition keyed_file (f : list Z) : WeChatFile (list Z) :=
  {| real_file := f; path := "/a/db"; keys := Some sample_keys; decrypt_cb := true |}.

Definition unkeyed_file (f : list Z) (cb : bool) : WeChatFile (list Z) :=
  {| real_file := f; path := "/a/db"; keys := None; decrypt_cb := cb |}.

Definition no_buffers : tls :=
  {| g_encrypted_buffer := None; g_decrypted_buffer := None |}.

(** * Registration of the shim with SQLite

    [sqlite3.dll] as [wechat_vfs_register] and [wechat_vfs_unregister] see
    it: whether [LoadLibraryA] finds the library, which of the three symbols
    [GetProcAddress] resolves, and the three functions themselves, over the
    library's list of file systems (of type [S]); [V] is the type of
    [sqlite3_vfs*]. *)
Record sqlite3_dll (S V : Type) := {
  LoadLibraryA : bool;
  GetProcAddress_find : bool;
  GetProcAddress_register : bool;
  GetProcAddress_unregister : bool;
  (** [sqlite3_vfs_find(nullptr)]: the default file system, if there is one *)
  sqlite3_vfs_find : S -> option V;
  (** [sqlite3_vfs_register(vfs, makeDflt)]: the status and the list after *)
  sqlite3_vfs_register : S -> V -> Z -> Z * S;
  sqlite3_vfs_unregister : S -> V -> Z * S
}.
Arguments LoadLibraryA {S V}.
Arguments GetProcAddress_find {S V}.
Arguments GetProcAddress_register {S V}.
Arguments GetProcAddress_unregister {S V}.
Arguments sqlite3_vfs_find {S V}.
Arguments sqlite3_vfs_register {S V}.
Arguments sqlite3_vfs_unregister {S V}.

(** The statics of the file that registration uses: a pointer is [true] when
    it is not null. *)
Record globals (V : Type) := {
  sqlite3_module : bool;
  p_sqlite3_vfs_find : bool;
  p_sqlite3_vfs_register : bool;
  p_sqlite3_vfs_unregister : bool;
  g_default_vfs : option V
}.
Arguments sqlite3_module {V}.
Arguments p_sqlite3_vfs_find {V}.
Arguments p_sqlite3_vfs_register {V}.
Arguments p_sqlite3_vfs_unregister {V}.
Arguments g_default_vfs {V}.

(** The statics when the program starts. *)
Definition initial_globals {V : Type} : globals V :=
  {| sqlite3_module := false; p_sqlite3_vfs_find := false;
     p_sqlite3_vfs_register := false; p_sqlite3_vfs_unregister := false;
     g_default_vfs := None |}.

(** What a call does: it returns, or it calls through a null function
    pointer, which is undefined. *)
Inductive call_result (A : Type) :=
  | Returned (a : A)
  | NullCall.
Arguments Returned {A}.
Arguments NullCall {A}.

Section Registration.

Context {S V : Type}.
Variable dll : sqlite3_dll S V.

(** [&wechat_vfs] *)
Variable wechat_vfs : V.

(** [wechat_vfs_register]: the status, the statics and SQLite's list
    afterwards. *)
Definition wechat_vfs_register (g : globals V) (s : S)
    : call_result (Z * globals V * S) :=
  let loaded : Z * globals V + globals V :=
    if negb (sqlite3_module g) then
      if negb (LoadLibraryA dll) then inl (SQLITE_ERROR, g)
      else
        let g1 := {| sqlite3_module := true;
                     p_sqlite3_vfs_find := GetProcAddress_find dll;
                     p_sqlite3_vfs_register := GetProcAddress_register dll;
                     p_sqlite3_vfs_unregister := GetProcAddress_unregister dll;
                     g_default_vfs := g_default_vfs g |} in
        if (negb (p_sqlite3_vfs_find g1) || negb (p_sqlite3_vfs_register g1)
            || negb (p_sqlite3_vfs_unregister g1))%bool
        then inl (SQLITE_ERROR, g1)
        else inr g1
    else inr g in
  match loaded with
  | inl (rc, g') => Returned (rc, g', s)
  | inr g1 =>
      if negb (p_sqlite3_vfs_find g1) then NullCall
      else
        let g2 := {| sqlite3_module := sqlite3_module g1;
                     p_sqlite3_vfs_find := p_sqlite3_vfs_find g1;
                     p_sqlite3_vfs_register := p_sqlite3_vfs_register g1;
                     p_sqlite3_vfs_unregister := p_sqlite3_vfs_unregister g1;
                     g_default_vfs := sqlite3_vfs_find dll s |} in
        match g_default_vfs g2 with
        | None => Returned (SQLITE_ERROR, g2, s)
        | Some _ =>
            if negb (p_sqlite3_vfs_register g2) then NullCall
            else
              let '(rc, s') := sqlite3_vfs_register dll s wechat_vfs 1 in
              Returned (rc, g2, s')
        end
  end.

(** [wechat_vfs_unregister] *)
Definition wechat_vfs_unregister (g : globals V) (s : S) : Z * globals V * S :=
  if negb (p_sqlite3_vfs_unregister g) then (SQLITE_ERROR, g, s)
  else
    let '(rc, s') := sqlite3_vfs_unregister dll s wechat_vfs in
    (rc, g, s').

End Registration.

(** * More vocabulary *)

(** ** Hexadecimal text *)

(** The value of a hexadecimal digit, in either case. *)
Definition hex_value (c : ascii) : option Z :=
  let n := Z.of_N (N_of_ascii c) in
  if (48 <=? n) && (n <=? 57) then Some (n - 48)
  else if (97 <=? n) && (n <=? 102) then Some (n - 87)
  else if (65 <=? n) && (n <=? 70) then Some (n - 55)
  else None.

(** What [sscanf_s(s, "%2x", &byte)] stores when [s] starts with two
    hexadecimal digits. *)
Definition scans_hex_pairs (scan_2x : string -> Z) : Prop :=
  forall a b rest hi lo,
    hex_value a = Some hi -> hex_value b = Some lo ->
    scan_2x (String a (String b rest)) = 16 * hi + lo.

(** The lower-case digit of a value below 16. *)
Definition hex_char (d : Z) : ascii :=
  ascii_of_N (Z.to_N (if d <? 10 then 48 + d else 87 + d)).

(** Two lower-case digits for each byte. *)
Fixpoint to_hex (bytes : list Z) : string :=
  match bytes with
  | [] => EmptyString
  | b :: rest => String (hex_char (b / 16)) (String (hex_char (b mod 16)) (to_hex rest))
  end.

(** ** The log of a read, again *)

(** The page a platform read of the log is for. *)
Definition event_page (ev : event) : option Z :=
  match ev with
  | EvRead page_num _ _ _ => Some page_num
  | _ => None
  end.

Definition pages_read (log : list event) : list Z := omap event_page log.

(** The file offsets at which a log asks the platform for a page. *)
Definition event_offset (ev : event) : option Z :=
  match ev with
  | EvRead _ _ iOfst _ => Some iOfst
  | _ => None
  end.

Definition offsets_read (log : list event) : list Z := omap event_offset log.



(** The key an engine call of the log is given. *)
Definition event_key (ev : event) : option (list Z) :=
  match ev with
  | EvDecrypt _ _ _ key _ _ => Some key
  | _ => None
  end.

(** A handle with other keys. *)
Definition with_keys {F : Type} (p : WeChatFile F) (k : option EncryptionKeys)
    : WeChatFile F :=
  {| real_file := real_file p; path := path p; keys := k;
     decrypt_cb := decrypt_cb p |}.


(** ** The handle's pointer into the registry

    [wechat_open] stores in [p->keys] the address of the record inside the
    registry's map node (line 359), not a copy, so a read decrypts with what
    that node holds when it is made.  A node of a [std::map] stays where it
    is as long as its key is in the map: registering the path again assigns
    to the record in place (line 510), registering or erasing another path
    leaves it alone, and erasing the path (line 517) destroys the node and
    leaves the pointer dangling. *)

Inductive registry_call :=
  | RegisterKeys (db_path enc_key_hex mac_key_hex : string)
  | UnregisterKeys (db_path : string).

Section Aliasing.

Variable scan_2x : string -> Z.

Definition registry_step (g : gmap string EncryptionKeys) (c : registry_call)
    : gmap string EncryptionKeys :=
  match c with
  | RegisterKeys db_path enc_key_hex mac_key_hex =>
      wechat_vfs_register_keys scan_2x g db_path enc_key_hex mac_key_hex
  | UnregisterKeys db_path => wechat_vfs_unregister_keys g db_path
  end.

Definition registry_run (g : gmap string EncryptionKeys)
    (calls : list registry_call) : gmap string EncryptionKeys :=
  foldl registry_step g calls.

(** The node [p->keys] designates after [wechat_open], named by its key in
    the map; [None] for [nullptr]. *)
Definition keys_node (g : gmap string EncryptionKeys) (zName : option string)
    : option string :=
  name ← zName;
  match g !! normalize_path name with
  | Some _ => Some (normalize_path name)
  | None => None
  end.

(** Whether a registry call destroys the node. *)
Definition erases (node : string) (c : registry_call) : bool :=
  match c with
  | UnregisterKeys db_path => bool_decide (normalize_path db_path = node)
  | RegisterKeys _ _ _ => false
  end.

(** The handle [h] that [wechat_open] set up for [zName] when the registry
    was [g], as a call finds it after the registry calls [calls]: a null
    pointer stays null, otherwise [keys] is what the node holds by then.
    [None] when the node was erased: the pointer dangles, and what a read
    through it does is undefined. *)
Definition handle_after {F : Type} (g : gmap string EncryptionKeys)
    (zName : option string) (h : WeChatFile F) (calls : list registry_call)
    : option (WeChatFile F) :=
  match keys_node g zName with
  | None => Some h
  | Some node =>
      if existsb (erases node) calls then None
      else Some (with_keys h (registry_run g calls !! node))
  end.

End Aliasing.

(** A key of 32 bytes, 0 to 31, and another, 32 to 63, as registered. *)
Definition key_hex_a : string :=
  "000102030405060708090a0b0c0d0e0f101112131415161718191a1b1c1d1e1f".
Definition key_hex_b : string :=
  "202122232425262728292a2b2c2d2e2f303132333435363738393a3b3c3d3e3f".

(** Registry calls made while a file registered and opened as
    [c:/data/db.sqlite] is open: keys for another path, then new keys for
    the path of the file under another spelling. *)
Definition later_calls : list registry_call :=
  [RegisterKeys "/other" "0aff" "10";
   RegisterKeys "C:\DATA\DB.SQLITE" key_hex_b "11"].

(** ** SQLite's list of file systems, for the examples

    File systems are numbers, the list holds the default first;
    registering as default moves a file system to the front. *)

Definition list_dll : sqlite3_dll (list nat) nat :=
  {| LoadLibraryA := true;
     GetProcAddress_find := true;
     GetProcAddress_register := true;
     GetProcAddress_unregister := true;
     sqlite3_vfs_find := fun s => head s;
     sqlite3_vfs_register := fun s v makeDflt =>
       let others := filter (fun x => x ≠ v) s in
       (SQLITE_OK,
        if makeDflt =? 0
        then match others with [] => [v] | d :: rest => d :: v :: rest end
        else v :: others);
     sqlite3_vfs_unregister := fun s v => (SQLITE_OK, filter (fun x => x ≠ v) s) |}.

(** The same library without the symbol [sqlite3_vfs_find]. *)
Definition list_dll_no_find : sqlite3_dll (list nat) nat :=
  {| LoadLibraryA := true;
     GetProcAddress_find := false;
     GetProcAddress_register := true;
     GetProcAddress_unregister := true;
     sqlite3_vfs_find := sqlite3_vfs_find list_dll;
     sqlite3_vfs_register := sqlite3_vfs_register list_dll;
     sqlite3_vfs_unregister := sqlite3_vfs_unregister list_dll |}.

(** After a successful registration as default the file system is the one
    [sqlite3_vfs_find(nullptr)] returns. *)
Definition register_makes_default {S V : Type} (dll : sqlite3_dll S V) : Prop :=
  forall s v s',
    sqlite3_vfs_register dll s v 1 = (SQLITE_OK, s') ->
    sqlite3_vfs_find dll s' = Some v.

(** ** Normal paths *)

(** A character [normalize_path] leaves alone: no backslash, no upper-case
    ASCII letter. *)
Definition is_normal_char (c : ascii) : bool :=
  (negb (Ascii.eqb c "\"%char)
   && negb (N.leb 65 (N_of_ascii c) && N.leb (N_of_ascii c) 90))%bool.

Fixpoint all_chars (f : ascii -> bool) (s : string) : bool :=
  match s with
  | EmptyString => true
  | String c rest => (f c && all_chars f rest)%bool
  end.

(** ** More of the examples *)

(** An engine whose algorithm provider cannot be opened. *)
Definition broken_cng : CNG :=
  {| BCryptOpenAlgorithmProvider := false;
     BCryptSetProperty := true;
     BCryptGenerateSymmetricKey := fun _ => true;
     BCryptDecrypt := BCryptDecrypt xor_cng |}.

(** * Properties *)

(** ** The write side *)

(** C7: every write and every truncate on an open handle, with or without a
    key record and whatever the platform file would allow, returns
    [SQLITE_READONLY]; the handle, its platform file and the size the file
    reports are as before the call. *)
Theorem write_and_truncate_are_read_only {F : Type} (io : sqlite3_io_methods F)
    (p : WeChatFile F) (zBuf : list Z) (iAmt iOfst size : Z) :
  wechat_write p zBuf iAmt iOfst = (SQLITE_READONLY, p)
  ∧ wechat_truncate p size = (SQLITE_READONLY, p)
  ∧ real_file (wechat_write p zBuf iAmt iOfst).2 = real_file p
  ∧ real_file (wechat_truncate p size).2 = real_file p
  ∧ wechat_file_size io (wechat_write p zBuf iAmt iOfst).2 = wechat_file_size io p
  ∧ wechat_file_size io (wechat_truncate p size).2 = wechat_file_size io p.
Proof. repeat split. Qed.

(** ** Path normalization *)

Lemma all_ascii_complete (c : ascii) : c ∈ all_ascii.
Proof.
  unfold all_ascii. apply list_elem_of_fmap.
  exists (nat_of_ascii c). split.
  - symmetry. apply ascii_nat_embedding.
  - apply elem_of_seq. pose proof (nat_ascii_bounded c). lia.
Qed.

Lemma same_char_table :
  forallb (fun a => forallb (fun b =>
    implb (same_char a b) (Ascii.eqb (normalize_char a) (normalize_char b)))
    all_ascii) all_ascii = true.
Proof. vm_compute. reflexivity. Qed.

Lemma normalize_char_same (a b : ascii) :
  same_char a b = true -> normalize_char a = normalize_char b.
Proof.
  intros Hab. pose proof same_char_table as Ht.
  rewrite forallb_forall in Ht.
  specialize (Ht a ltac:(apply list_elem_of_In, all_ascii_complete)).
  rewrite forallb_forall in Ht.
  specialize (Ht b ltac:(apply list_elem_of_In, all_ascii_complete)).
  rewrite Hab in Ht. simpl in Ht. by apply Ascii.eqb_eq.
Qed.

Lemma normalize_path_same (p1 p2 : string) :
  same_spelling p1 p2 = true -> normalize_path p1 = normalize_path p2.
Proof.
  revert p2. induction p1 as [|a r1 IH]; intros [|b r2] H; simpl in *;
    try discriminate; [reflexivity|].
  apply andb_prop in H as [Hc Hr].
  f_equal; [by apply normalize_char_same | by apply IH].
Qed.

(** C8: a path is normalized the same way when keys are registered and when a
    file is opened, so for two spellings that differ only in the case of
    ASCII letters or in the direction of separators, the record registered
    under the one is the record an open under the other finds (and the one an
    open under the first finds). *)
Theorem register_then_open_other_spelling {F : Type}
    (scan_2x : string -> Z) (default_xOpen : option string -> Z -> Z * F)
    (g : gmap string EncryptionKeys) (cb : bool)
    (p1 p2 enc_key_hex mac_key_hex : string) (flags : Z) (real : F) :
  same_spelling p1 p2 = true ->
  default_xOpen (Some p2) flags = (SQLITE_OK, real) ->
  let g' := wechat_vfs_register_keys scan_2x g p1 enc_key_hex mac_key_hex in
  let record := {| encKey := hex_to_bytes scan_2x enc_key_hex;
                   macKey := hex_to_bytes scan_2x mac_key_hex |} in
  normalize_path p1 = normalize_path p2
  ∧ find_keys g' p1 = Some record
  ∧ find_keys g' p2 = Some record
  ∧ wechat_open default_xOpen g' cb (Some p2) flags
    = (SQLITE_OK, Some {| real_file := real; path := p2;
                          keys := Some record; decrypt_cb := cb |}).
Proof.
  intros Hs Ho g' record.
  pose proof (normalize_path_same _ _ Hs) as Hn.
  assert (Hf : g' !! normalize_path p2 = Some record).
  { subst g'. unfold wechat_vfs_register_keys. rewrite <- Hn.
    apply lookup_insert_eq. }
  repeat split; try done.
  - unfold find_keys. by rewrite Hn.
  - unfold wechat_open, find_keys. rewrite Ho. simpl. by rewrite Hf.
Qed.

Lemma register_then_open_other_spelling_witness :
  same_spelling "C:\Data\db.sqlite" "c:/data/DB.sqlite" = true
  ∧ wechat_open (mem_xOpen two_pages)
      (wechat_vfs_register_keys scan_hex2 ∅ "C:\Data\db.sqlite" "0aff" "10")
      true (Some "c:/data/DB.sqlite"%string) 1
    = (SQLITE_OK, Some {| real_file := two_pages; path := "c:/data/DB.sqlite";
                          keys := Some {| encKey := hex_to_bytes scan_hex2 "0aff";
                                          macKey := hex_to_bytes scan_hex2 "10" |};
                          decrypt_cb := true |}).
Proof.
  split; [reflexivity|].
  apply (register_then_open_other_spelling scan_hex2 (mem_xOpen two_pages) ∅ true
           "C:\Data\db.sqlite" "c:/data/DB.sqlite" "0aff" "10" 1 two_pages);
    reflexivity.
Defined.

(** ** The registry *)

(** C9: registering stores the record under the normalized path whatever the
    registry held (a later registration replaces an earlier one, and a lookup
    returns the later keys); unregistering a path that has no record leaves
    the registry as it is, and after unregistering a lookup of the path finds
    no record, whether one was there or not, so a file opened then has no
    keys; other paths are not affected. *)
Theorem register_unregister_lookup {F : Type} (scan_2x : string -> Z)
    (default_xOpen : option string -> Z -> Z * F)
    (g : gmap string EncryptionKeys) (db_path e1 m1 e2 m2 other : string) :
  let record e m := {| encKey := hex_to_bytes scan_2x e;
                       macKey := hex_to_bytes scan_2x m |} in
  let g1 := wechat_vfs_register_keys scan_2x g db_path e1 m1 in
  let g2 := wechat_vfs_register_keys scan_2x g1 db_path e2 m2 in
  find_keys g1 db_path = Some (record e1 m1)
  ∧ find_keys g2 db_path = Some (record e2 m2)
  ∧ g2 = wechat_vfs_register_keys scan_2x g db_path e2 m2
  ∧ wechat_vfs_register_keys scan_2x g1 db_path e1 m1 = g1
  ∧ (find_keys g db_path = None -> wechat_vfs_unregister_keys g db_path = g)
  ∧ find_keys (wechat_vfs_unregister_keys g db_path) db_path = None
  ∧ find_keys (wechat_vfs_unregister_keys g1 db_path) db_path = None
  ∧ (forall cb flags real,
        default_xOpen (Some db_path) flags = (SQLITE_OK, real) ->
        wechat_open default_xOpen (wechat_vfs_unregister_keys g1 db_path) cb
                    (Some db_path) flags
        = (SQLITE_OK, Some {| real_file := real; path := db_path;
                              keys := None; decrypt_cb := cb |}))
  ∧ (normalize_path other ≠ normalize_path db_path ->
       find_keys g1 other = find_keys g other
       ∧ find_keys (wechat_vfs_unregister_keys g db_path) other = find_keys g other).
Proof.
  intros record g1 g2. subst g1 g2.
  unfold find_keys, wechat_vfs_register_keys, wechat_vfs_unregister_keys.
  repeat split.
  - apply lookup_insert_eq.
  - apply lookup_insert_eq.
  - apply insert_insert_eq.
  - apply insert_insert_eq.
  - intros Hn. by apply delete_id.
  - apply lookup_delete_eq.
  - apply lookup_delete_eq.
  - intros cb flags real Ho. unfold wechat_open, find_keys. rewrite Ho. cbn.
    by rewrite lookup_delete_eq.
  - by apply lookup_insert_ne.
  - by apply lookup_delete_ne.
Qed.

Lemma register_unregister_lookup_witness :
  find_keys (∅ : gmap string EncryptionKeys) "/a/db" = None
  ∧ wechat_vfs_unregister_keys (∅ : gmap string EncryptionKeys) "/a/db" = ∅
  ∧ find_keys (wechat_vfs_register_keys scan_hex2
                 (wechat_vfs_register_keys scan_hex2 ∅ "/a/db" "00ff" "01")
                 "/A\DB" "a0b1" "02") "/a/db"
    = Some {| encKey := hex_to_bytes scan_hex2 "a0b1";
              macKey := hex_to_bytes scan_hex2 "02" |}.
Proof.
  assert (Hnone : find_keys (∅ : gmap string EncryptionKeys) "/a/db" = None)
    by reflexivity.
  destruct (register_unregister_lookup scan_hex2 (mem_xOpen two_pages) ∅
              "/a/db" "00ff" "01" "a0b1" "02" "/b")
    as (_ & _ & _ & _ & Hnoop & _).
  destruct (register_unregister_lookup scan_hex2 (mem_xOpen two_pages) ∅
              "/A\DB" "00ff" "01" "a0b1" "02" "/b")
    as (_ & Hlast & _).
  exact (conj Hnone (conj (Hnoop Hnone) Hlast)).
Defined.

(** ** Integers and memory *)

Ltac consts :=
  unfold PAGE_SIZE, RESERVE_SIZE, SALT_SIZE, IV_SIZE,
         SQLITE_OK, SQLITE_ERROR, SQLITE_READONLY in *.

Lemma to_int_small (z : Z) : - 2 ^ 31 <= z < 2 ^ 31 -> to_int z = z.
Proof. intros H. unfold to_int. rewrite Z.mod_small; lia. Qed.

Lemma to_int64_small (z : Z) : - 2 ^ 63 <= z < 2 ^ 63 -> to_int64 z = z.
Proof. intros H. unfold to_int64. rewrite Z.mod_small; lia. Qed.

Lemma length_sub_bytes_le (m : list Z) (off len : Z) :
  (length (sub_bytes m off len) <= Z.to_nat len)%nat.
Proof. unfold sub_bytes. rewrite length_take. lia. Qed.

Lemma length_sub_bytes (m : list Z) (off len : Z) :
  (Z.to_nat off + Z.to_nat len <= length m)%nat ->
  length (sub_bytes m off len) = Z.to_nat len.
Proof. intros H. unfold sub_bytes. rewrite length_take, length_drop. lia. Qed.

Lemma length_store (m : list Z) (off : Z) (data : list Z) :
  (Z.to_nat off + length data <= length m)%nat ->
  length (store m off data) = length m.
Proof.
  intros H. unfold store.
  rewrite !length_app, length_take, length_drop. lia.
Qed.

Lemma store_whole (m data : list Z) :
  length data = length m -> store m 0 data = data.
Proof.
  intros H. unfold store. change (Z.to_nat 0) with 0%nat.
  rewrite take_0, drop_ge by (simpl; lia). simpl. by rewrite app_nil_r.
Qed.

Lemma sub_bytes_whole (m : list Z) (len : Z) :
  length m = Z.to_nat len -> sub_bytes m 0 len = m.
Proof.
  intros H. unfold sub_bytes. change (Z.to_nat 0) with 0%nat.
  rewrite drop_0, take_ge; [done | lia].
Qed.

Section ReadFacts.

Context {F : Type}.
Variable io : sqlite3_io_methods F.
Variable cng : CNG.
Variable fresh : bool -> nat -> Z.

Lemma length_call_xRead (f : F) (buf : list Z) (iAmt iOfst : Z) :
  (Z.to_nat iAmt <= length buf)%nat ->
  length (call_xRead io f buf iAmt iOfst).2 = length buf.
Proof.
  intros H. unfold call_xRead.
  destruct (xRead io f iAmt iOfst) as [rc data]. simpl.
  apply length_store. rewrite length_take. lia.
Qed.

Lemma length_aes_decrypt_cbc (mem : list Z) (encrypted encrypted_len : Z)
    (key : list Z) (iv : Z) (decrypted : list Z) :
  (Z.to_nat encrypted_len <= length decrypted)%nat ->
  (Z.to_nat iv + Z.to_nat IV_SIZE <= length mem)%nat ->
  let r := aes_decrypt_cbc cng mem encrypted encrypted_len key iv decrypted in
  length r.1.2 = length mem ∧ length r.2 = length decrypted.
Proof.
  intros H Hiv. unfold aes_decrypt_cbc.
  repeat (case_match; simpl; try done).
  split; apply length_store; rewrite length_take; lia.
Qed.

Lemma length_decrypt_page (k : option EncryptionKeys) (page_num : Z)
    (enc dec : list Z) :
  length enc = Z.to_nat PAGE_SIZE -> length dec = Z.to_nat PAGE_SIZE ->
  length (pr_enc (decrypt_page cng k page_num enc dec)) = Z.to_nat PAGE_SIZE
  ∧ length (pr_dec (decrypt_page cng k page_num enc dec)) = Z.to_nat PAGE_SIZE.
Proof.
  intros He Hd. unfold decrypt_page. destruct k as [ks|]; simpl.
  - destruct (page_num =? 0);
      (match goal with
       | |- context [aes_decrypt_cbc cng enc ?o ?l ?k ?i dec] =>
           pose proof (length_aes_decrypt_cbc enc o l k i dec) as Hl;
           destruct (aes_decrypt_cbc cng enc o l k i dec) as [[ok enc1] dec1]
       end);
      simpl in Hl;
      (destruct Hl as [Hl1 Hl2]; [rewrite Hd; consts; lia | rewrite He; consts; lia |]);
      rewrite He in Hl1; rewrite Hd in Hl2;
      destruct ok; simpl; (split; [done|]); try done;
      unfold memset, memcpy; rewrite ?length_store; try done;
      rewrite ?length_replicate, ?length_store;
      try (pose proof (length_sub_bytes_le enc1 (PAGE_SIZE - RESERVE_SIZE)
                         RESERVE_SIZE); consts; lia).
  - split; [done|]. unfold memcpy. rewrite length_store; [done|].
    pose proof (length_sub_bytes_le enc 0 PAGE_SIZE). consts. lia.
Qed.

End ReadFacts.

(** ** The page loop: what every turn preserves *)

Section Loop.

Context {F : Type}.
Variable io : sqlite3_io_methods F.
Variable cng : CNG.
Variable fresh : bool -> nat -> Z.
Variable p : WeChatFile F.
Variables iAmt start_page start_offset : Z.

Lemma read_pages_invariant (I : loop_state -> Prop) :
  (forall page_num st,
      I st ->
      I (outcome_state (read_page io cng p iAmt start_page start_offset page_num st))) ->
  forall pages st,
    I st ->
    I (outcome_state (read_pages io cng p iAmt start_page start_offset pages st)).
Proof.
  intros Hstep pages. induction pages as [|page_num rest IH]; intros st Hst; simpl.
  - done.
  - specialize (Hstep page_num st Hst).
    destruct (read_page io cng p iAmt start_page start_offset page_num st);
      simpl in *; auto.
Qed.

Lemma read_pages_app (l1 l2 : list Z) (st : loop_state) :
  read_pages io cng p iAmt start_page start_offset (l1 ++ l2) st
  = match read_pages io cng p iAmt start_page start_offset l1 st with
    | Continue st' => read_pages io cng p iAmt start_page start_offset l2 st'
    | Return rc st' => Return rc st'
    end.
Proof.
  revert st. induction l1 as [|page_num rest IH]; intros st; simpl; [done|].
  destruct (read_page io cng p iAmt start_page start_offset page_num st); auto.
Qed.

Lemma decrypt_page_events_ok (k : option EncryptionKeys) (page_num : Z)
    (enc dec : list Z) :
  length enc = Z.to_nat PAGE_SIZE ->
  Forall event_ok (pr_events (decrypt_page cng k page_num enc dec)).
Proof.
  intros He. unfold decrypt_page. destruct k as [ks|]; simpl; [|constructor].
  destruct (aes_decrypt_cbc _ _ _ _ _ _ _) as [[ok enc1] dec1].
  destruct ok; simpl; repeat constructor; done.
Qed.

Lemma read_page_ok (page_num : Z) (st : loop_state) :
  buffers_ok st ∧ Forall event_ok (ls_log st) ->
  let st' := outcome_state
               (read_page io cng p iAmt start_page start_offset page_num st) in
  buffers_ok st' ∧ Forall event_ok (ls_log st').
Proof.
  intros [[He Hd] Hlog]. unfold read_page.
  pose proof (length_call_xRead io (real_file p) (ls_enc st) PAGE_SIZE
                (to_int64 (page_num * PAGE_SIZE))) as Hx.
  destruct (call_xRead _ _ _ _ _) as [rc enc]. simpl in Hx.
  assert (He' : length enc = Z.to_nat PAGE_SIZE) by (rewrite Hx; lia).
  destruct (rc =? SQLITE_OK); simpl.
  - pose proof (length_decrypt_page cng (keys p) page_num enc (ls_dec st) He' Hd)
      as [Hel Hdl].
    pose proof (decrypt_page_events_ok (keys p) page_num enc (ls_dec st) He')
      as Hev.
    destruct (decrypt_page _ _ _ _ _) as [ok enc' dec evs]. simpl in *.
    destruct ok; simpl; (split; [done|]);
      rewrite ?Forall_app; repeat split; try done; repeat constructor; done.
  - split; [done|]. rewrite Forall_app. split; [done|]. repeat constructor.
Qed.

Lemma start_state_ok (t : tls) (zBuf : list Z) :
  tls_ok t ->
  buffers_ok (start_state fresh t zBuf) ∧ Forall event_ok (ls_log (start_state fresh t zBuf)).
Proof.
  intros [He Hd]. unfold start_state, ensure_buffers_allocated, buffers_ok.
  cbn [ls_enc ls_dec ls_log g_encrypted_buffer g_decrypted_buffer].
  split; [|constructor].
  unfold buffer_ok in *.
  destruct (g_encrypted_buffer t), (g_decrypted_buffer t);
    cbn [default from_option id]; unfold new_uchar_array;
    rewrite ?length_fmap, ?length_seq; done.
Qed.

End Loop.

Section ReadLog.

Context {F : Type}.
Variable io : sqlite3_io_methods F.
Variable cng : CNG.
Variable fresh : bool -> nat -> Z.

(** The paged path, as the loop it runs. *)
Lemma wechat_read_paged (p : WeChatFile F) (t : tls) (zBuf : list Z)
    (iAmt iOfst : Z) :
  decrypt_cb p = true ->
  let o := read_pages io cng p iAmt (first_page iOfst) (first_skip iOfst)
             (page_range (first_page iOfst) (last_page iAmt iOfst))
             (start_state fresh t zBuf) in
  wechat_read io cng fresh p t zBuf iAmt iOfst
  = finish (match o with Continue _ => SQLITE_OK | Return rc _ => rc end)
           (outcome_state o).
Proof.
  intros Hcb. unfold wechat_read. rewrite Hcb. simpl.
  destruct (read_pages _ _ _ _ _ _ _ _); done.
Qed.

Lemma wechat_read_events_ok (p : WeChatFile F) (t : tls) (zBuf : list Z)
    (iAmt iOfst : Z) :
  tls_ok t ->
  let r := wechat_read io cng fresh p t zBuf iAmt iOfst in
  Forall event_ok (rr_log r) ∧ tls_ok (rr_tls r).
Proof.
  intros Ht. destruct (decrypt_cb p) eqn:Hcb.
  - rewrite wechat_read_paged by done. simpl.
    match goal with
    | |- context [read_pages io cng p iAmt ?sp ?so ?pages ?st0] =>
        pose proof (read_pages_invariant io cng p iAmt sp so
                      (fun s => buffers_ok s ∧ Forall event_ok (ls_log s))
                      (read_page_ok io cng p iAmt sp so)
                      pages st0 (start_state_ok fresh t zBuf Ht)) as [Hb Hl]
    end.
    split; [done|]. apply Hb.
  - unfold wechat_read. rewrite Hcb. simpl.
    destruct (call_xRead _ _ _ _ _) as [rc zBuf']. simpl.
    split; [repeat constructor | done].
Qed.

End ReadLog.

(** ** Reassembly of a decrypted page *)

Lemma store_at (a b c data : list Z) (off : Z) :
  length a = Z.to_nat off -> length b = length data ->
  store (a ++ b ++ c) off data = a ++ data ++ c.
Proof.
  intros Ha Hb. unfold store.
  rewrite take_app_length' by done.
  rewrite <- Ha, <- Hb, drop_app_add, drop_app_length. done.
Qed.

Lemma three_parts (l : list Z) (n m : nat) :
  l = take n l ++ take m (drop n l) ++ drop (n + m) l.
Proof. by rewrite <- drop_drop, !take_drop. Qed.

Section Reassembly.

Variable cng : CNG.

Lemma decrypt_page_layout (ks : EncryptionKeys) (page_num : Z)
    (enc dec output iv_after : list Z) :
  length enc = Z.to_nat PAGE_SIZE ->
  length dec = Z.to_nat PAGE_SIZE ->
  BCryptOpenAlgorithmProvider cng = true ->
  BCryptSetProperty cng = true ->
  BCryptGenerateSymmetricKey cng (take 32 (encKey ks)) = true ->
  let offset := if page_num =? 0 then SALT_SIZE else 0 in
  BCryptDecrypt cng (take 32 (encKey ks))
                (sub_bytes enc offset (PAGE_SIZE - RESERVE_SIZE - offset))
                (sub_bytes enc (PAGE_SIZE - RESERVE_SIZE) IV_SIZE)
  = (true, output, iv_after) ->
  length output = Z.to_nat (PAGE_SIZE - RESERVE_SIZE - offset) ->
  let enc' := store enc (PAGE_SIZE - RESERVE_SIZE) (take (Z.to_nat IV_SIZE) iv_after) in
  decrypt_page cng (Some ks) page_num enc dec
  = {| pr_ok := true;
       pr_enc := enc';
       pr_dec := output ++ sub_bytes enc' (PAGE_SIZE - RESERVE_SIZE) RESERVE_SIZE
                        ++ (if page_num =? 0
                            then replicate (Z.to_nat SALT_SIZE) 0 else []);
       pr_events := [EvDecrypt page_num enc
                       (sub_bytes enc offset (PAGE_SIZE - RESERVE_SIZE - offset))
                       (take 32 (encKey ks))
                       (sub_bytes enc (PAGE_SIZE - RESERVE_SIZE) IV_SIZE) true] |}.
Proof.
  intros He Hd H1 H2 H3 offset H4 Hlen enc'.
  unfold decrypt_page, aes_decrypt_cbc. fold offset.
  rewrite H1, H2, H3. cbn [negb]. rewrite H4. cbn [negb]. fold enc'.
  assert (He' : length enc' = Z.to_nat PAGE_SIZE).
  { subst enc'. rewrite length_store; [done|]. rewrite length_take, He. consts. lia. }
  set (L := PAGE_SIZE - RESERVE_SIZE - offset) in *.
  set (reserve := sub_bytes enc' (PAGE_SIZE - RESERVE_SIZE) RESERVE_SIZE).
  assert (Hr : length reserve = Z.to_nat RESERVE_SIZE).
  { subst reserve. apply length_sub_bytes. rewrite He'. consts. lia. }
  assert (HL : (Z.to_nat L + Z.to_nat RESERVE_SIZE <= Z.to_nat PAGE_SIZE)%nat).
  { subst L offset. consts. case_match; lia. }
  rewrite (take_ge output) by lia.
  rewrite (three_parts dec (Z.to_nat L) (Z.to_nat RESERVE_SIZE)).
  set (d1 := take (Z.to_nat L) dec).
  set (d2 := take (Z.to_nat RESERVE_SIZE) (drop (Z.to_nat L) dec)).
  set (d3 := drop (Z.to_nat L + Z.to_nat RESERVE_SIZE) dec).
  assert (Hd1 : length d1 = Z.to_nat L) by (subst d1; rewrite length_take; lia).
  assert (Hd2 : length d2 = Z.to_nat RESERVE_SIZE)
    by (subst d2; rewrite length_take, length_drop; lia).
  assert (Hd3 : length d3 = (Z.to_nat PAGE_SIZE - Z.to_nat L - Z.to_nat RESERVE_SIZE)%nat)
    by (subst d3; rewrite length_drop; lia).
  replace (store (d1 ++ d2 ++ d3) 0 output) with (output ++ d2 ++ d3).
  2:{ symmetry. apply (store_at [] d1 (d2 ++ d3) output 0); [done | lia]. }
  unfold memcpy. fold reserve.
  rewrite (store_at output d2 d3 reserve L) by lia.
  f_equal. subst offset L. destruct (page_num =? 0).
  - unfold memset.
    replace (output ++ reserve ++ d3) with ((output ++ reserve) ++ d3 ++ [])
      by (by rewrite app_nil_r, <- app_assoc).
    rewrite store_at.
    + by rewrite app_nil_r, <- app_assoc.
    + rewrite length_app. consts. lia.
    + rewrite length_replicate. consts. lia.
  - assert (d3 = []) as -> by (apply nil_length_inv; consts; lia).
    done.
Qed.

(** The layout of a reassembled page.  When the engine delivers the
    plaintext of the ciphertext region, the page is that plaintext, then the
    reserve region as it stands in the encrypted buffer after the engine
    call, then, for page 0 only, [SALT_SIZE] zero bytes; for any other page
    nothing is added.  Either way the page is [PAGE_SIZE] bytes long.  The
    last 64 bytes of the reserve are those read from the file; its first 16
    are the engine's vector buffer, and are those read from the file only for
    an engine that leaves that buffer as it was given. *)
Lemma reassembly_layout (ks : EncryptionKeys) (page_num : Z)
    (enc dec output iv_after : list Z) :
  length enc = Z.to_nat PAGE_SIZE ->
  length dec = Z.to_nat PAGE_SIZE ->
  BCryptOpenAlgorithmProvider cng = true ->
  BCryptSetProperty cng = true ->
  BCryptGenerateSymmetricKey cng (take 32 (encKey ks)) = true ->
  let offset := if page_num =? 0 then SALT_SIZE else 0 in
  BCryptDecrypt cng (take 32 (encKey ks))
                (sub_bytes enc offset (PAGE_SIZE - RESERVE_SIZE - offset))
                (sub_bytes enc (PAGE_SIZE - RESERVE_SIZE) IV_SIZE)
  = (true, output, iv_after) ->
  length output = Z.to_nat (PAGE_SIZE - RESERVE_SIZE - offset) ->
  let r := decrypt_page cng (Some ks) page_num enc dec in
  let reserve := drop (Z.to_nat (PAGE_SIZE - RESERVE_SIZE)) (pr_enc r) in
  pr_ok r = true
  ∧ length reserve = Z.to_nat RESERVE_SIZE
  ∧ (page_num = 0 ->
     pr_dec r = output ++ reserve ++ replicate (Z.to_nat SALT_SIZE) 0)
  ∧ (page_num ≠ 0 -> pr_dec r = output ++ reserve)
  ∧ length (pr_dec r) = Z.to_nat PAGE_SIZE
  ∧ drop (Z.to_nat IV_SIZE) reserve
    = drop (Z.to_nat (PAGE_SIZE - RESERVE_SIZE + IV_SIZE)) enc
  ∧ (take (Z.to_nat IV_SIZE) iv_after
     = sub_bytes enc (PAGE_SIZE - RESERVE_SIZE) IV_SIZE ->
     reserve = drop (Z.to_nat (PAGE_SIZE - RESERVE_SIZE)) enc).
Proof.
  intros He Hd H1 H2 H3 offset H4 Hlen r reserve.
  pose proof (decrypt_page_layout ks page_num enc dec output iv_after
                He Hd H1 H2 H3 H4 Hlen) as Hlay.
  cbv zeta in Hlay. fold r in Hlay.
  set (enc' := store enc (PAGE_SIZE - RESERVE_SIZE) (take (Z.to_nat IV_SIZE) iv_after))
    in *.
  assert (He' : length enc' = Z.to_nat PAGE_SIZE).
  { subst enc'. rewrite length_store; [done|]. rewrite length_take, He. consts. lia. }
  assert (Hres : sub_bytes enc' (PAGE_SIZE - RESERVE_SIZE) RESERVE_SIZE = reserve).
  { subst reserve. rewrite Hlay. cbn [pr_enc]. unfold sub_bytes. apply take_ge.
    rewrite length_drop, He'. consts. lia. }
  assert (Hrl : length reserve = Z.to_nat RESERVE_SIZE).
  { rewrite <- Hres. apply length_sub_bytes. rewrite He'. consts. lia. }
  rewrite Hres in Hlay.
  assert (Hok : pr_ok r = true) by (by rewrite Hlay).
  assert (Hdec : pr_dec r = output ++ reserve
                   ++ (if page_num =? 0 then replicate (Z.to_nat SALT_SIZE) 0 else []))
    by (by rewrite Hlay).
  split; [done|]. split; [done|].
  split; [|split; [|split; [|split]]].
  - intros ->. by rewrite Hdec.
  - intros Hne. apply Z.eqb_neq in Hne. rewrite Hdec, Hne. by rewrite app_nil_r.
  - rewrite Hdec, !length_app, Hlen, Hrl. subst offset.
    destruct (page_num =? 0); simpl length; consts; lia.
  - subst reserve. rewrite Hlay. cbn [pr_enc]. rewrite drop_drop.
    subst enc'. unfold store.
    set (data := take (Z.to_nat IV_SIZE) iv_after).
    assert (Hdl : (length data <= Z.to_nat IV_SIZE)%nat)
      by (subst data; rewrite length_take; lia).
    rewrite drop_app_ge by (rewrite length_take, He; consts; lia).
    rewrite drop_app_ge by (rewrite length_take, He; consts; lia).
    rewrite drop_drop. f_equal. rewrite length_take, He. consts. lia.
  - intros Hiv. subst reserve. rewrite Hlay. cbn [pr_enc]. f_equal.
    subst enc'. rewrite Hiv. unfold store, sub_bytes.
    rewrite length_take, length_drop, He.
    replace (Z.to_nat (PAGE_SIZE - RESERVE_SIZE)
             + Z.to_nat IV_SIZE `min` (Z.to_nat PAGE_SIZE - Z.to_nat (PAGE_SIZE - RESERVE_SIZE)))%nat
      with (Z.to_nat (PAGE_SIZE - RESERVE_SIZE) + Z.to_nat IV_SIZE)%nat
      by (consts; lia).
    symmetry. apply three_parts.
Qed.

End Reassembly.

(** C4: the reserve region is not copied untouched.  [aes_decrypt_cbc]
    gives CNG the address of the vector inside [g_encrypted_buffer] as
    [pbIV] (the pointer is declared [const] and cast), a buffer the call
    overwrites, and the reserve is copied from that buffer afterwards.  For
    page 1 of the sample file and an engine that leaves the last block of its
    input there, as CNG documents, the reassembled page is the plaintext and
    80 more bytes, nothing added; the last 64 of them are the reserve's as
    read from the file, but the first [IV_SIZE] are bytes 4000..4015 of the
    page (64..79), not the reserve's (80..95), and that is what a read of the
    reserve returns. *)
Theorem reserve_iv_is_overwritten :
  let r := decrypt_page chaining_cng (Some sample_keys) 1 page1 (zeros PAGE_SIZE) in
  let reserve_read := sub_bytes page1 (PAGE_SIZE - RESERVE_SIZE) RESERVE_SIZE in
  let reserve_copied := sub_bytes (pr_dec r) (PAGE_SIZE - RESERVE_SIZE) RESERVE_SIZE in
  pr_ok r = true
  ∧ pr_dec r = xor_plain sample_keys 1 page1 ++ reserve_copied
  ∧ length (pr_dec r) = Z.to_nat PAGE_SIZE
  ∧ length reserve_copied = Z.to_nat RESERVE_SIZE
  ∧ take (Z.to_nat IV_SIZE) reserve_read
    = [80; 81; 82; 83; 84; 85; 86; 87; 88; 89; 90; 91; 92; 93; 94; 95]
  ∧ take (Z.to_nat IV_SIZE) reserve_copied
    = [64; 65; 66; 67; 68; 69; 70; 71; 72; 73; 74; 75; 76; 77; 78; 79]
  ∧ take (Z.to_nat IV_SIZE) reserve_copied
    = sub_bytes page1 (PAGE_SIZE - RESERVE_SIZE - IV_SIZE) IV_SIZE
  ∧ drop (Z.to_nat IV_SIZE) reserve_copied = drop (Z.to_nat IV_SIZE) reserve_read
  ∧ reserve_copied ≠ reserve_read
  ∧ rr_zBuf (wechat_read mem_io chaining_cng zero_fresh (keyed_file two_pages)
                         no_buffers (zeros IV_SIZE) IV_SIZE
                         (2 * PAGE_SIZE - RESERVE_SIZE))
    = [64; 65; 66; 67; 68; 69; 70; 71; 72; 73; 74; 75; 76; 77; 78; 79].
Proof.
  cbv zeta. repeat split; try (vm_compute; reflexivity).
  intros Heq. apply (f_equal (take 1)) in Heq. vm_compute in Heq. discriminate.
Qed.

(** ** What the engine is given *)

Section EngineCalls.

Context {F : Type}.
Variable io : sqlite3_io_methods F.
Variable cng : CNG.
Variable fresh : bool -> nat -> Z.

(** C1, as the code has it: the initialization vector given to the engine
    for a page is the [IV_SIZE] bytes at [PAGE_SIZE - RESERVE_SIZE] of the
    encrypted page buffer, that is the first 16 bytes of the page's 80-byte
    reserve region, which 64 more bytes follow. *)
Theorem iv_is_head_of_reserve (p : WeChatFile F) (t : tls) (zBuf : list Z)
    (iAmt iOfst page_num : Z) (scratch encrypted key iv : list Z) (ok : bool) :
  tls_ok t ->
  EvDecrypt page_num scratch encrypted key iv ok
    ∈ rr_log (wechat_read io cng fresh p t zBuf iAmt iOfst) ->
  length scratch = Z.to_nat PAGE_SIZE
  ∧ iv = take (Z.to_nat IV_SIZE) (drop (Z.to_nat (PAGE_SIZE - RESERVE_SIZE)) scratch)
  ∧ exists body rest,
      scratch = body ++ iv ++ rest
      ∧ length body = Z.to_nat (PAGE_SIZE - RESERVE_SIZE)
      ∧ length iv = Z.to_nat IV_SIZE
      ∧ length rest = Z.to_nat (RESERVE_SIZE - IV_SIZE).
Proof.
  intros Ht Hin.
  pose proof (wechat_read_events_ok io cng fresh p t zBuf iAmt iOfst Ht) as [Hev _].
  rewrite Forall_forall in Hev. specialize (Hev _ Hin).
  destruct Hev as (Hlen & _ & Hiv). unfold sub_bytes in Hiv.
  split; [done|]. split; [done|].
  exists (take (Z.to_nat (PAGE_SIZE - RESERVE_SIZE)) scratch),
         (drop (Z.to_nat (PAGE_SIZE - RESERVE_SIZE) + Z.to_nat IV_SIZE) scratch).
  rewrite Hiv. split; [apply three_parts|].
  rewrite !length_take, !length_drop, Hlen. consts. lia.
Qed.


End EngineCalls.

Lemma no_buffers_ok : tls_ok no_buffers.
Proof. by split. Qed.

Lemma iv_is_head_of_reserve_witness :
  tls_ok no_buffers
  ∧ EvDecrypt 0 page0 (sub_bytes page0 SALT_SIZE (PAGE_SIZE - RESERVE_SIZE - SALT_SIZE))
              (replicate 32 7) (sub_bytes page0 (PAGE_SIZE - RESERVE_SIZE) IV_SIZE) true
      ∈ rr_log (wechat_read mem_io xor_cng zero_fresh (keyed_file two_pages)
                            no_buffers (zeros 20) 20 0)
  ∧ length page0 = Z.to_nat PAGE_SIZE
  ∧ sub_bytes page0 (PAGE_SIZE - RESERVE_SIZE) IV_SIZE
    = take (Z.to_nat IV_SIZE) (drop (Z.to_nat (PAGE_SIZE - RESERVE_SIZE)) page0).
Proof.
  assert (Hin : EvDecrypt 0 page0
                  (sub_bytes page0 SALT_SIZE (PAGE_SIZE - RESERVE_SIZE - SALT_SIZE))
                  (replicate 32 7) (sub_bytes page0 (PAGE_SIZE - RESERVE_SIZE) IV_SIZE) true
                ∈ rr_log (wechat_read mem_io xor_cng zero_fresh (keyed_file two_pages)
                                      no_buffers (zeros 20) 20 0)).
  { apply list_elem_of_In. vm_compute. right. left. reflexivity. }
  destruct (iv_is_head_of_reserve mem_io xor_cng zero_fresh (keyed_file two_pages)
              no_buffers (zeros 20) 20 0 0 _ _ _ _ _ no_buffers_ok Hin)
    as (Hlen & Hiv & _).
  exact (conj no_buffers_ok (conj Hin (conj Hlen Hiv))).
Defined.

(** C1, as the claim has it, fails: on page 0 of [two_pages] the engine is
    given bytes 4016..4031 of the encrypted page, which are not its last 16
    bytes (4080..4095). *)
Lemma iv_is_not_page_tail :
  omap iv_and_tail
       (rr_log (wechat_read mem_io xor_cng zero_fresh (keyed_file two_pages)
                            no_buffers (zeros 20) 20 0))
  = [([0; 1; 2; 3; 4; 5; 6; 7; 8; 9; 10; 11; 12; 13; 14; 15],
      [64; 65; 66; 67; 68; 69; 70; 71; 72; 73; 74; 75; 76; 77; 78; 79])]
  ∧ [0; 1; 2; 3; 4; 5; 6; 7; 8; 9; 10; 11; 12; 13; 14; 15]
    ≠ [64; 65; 66; 67; 68; 69; 70; 71; 72; 73; 74; 75; 76; 77; 78; 79].
Proof. split; [vm_compute; reflexivity | discriminate]. Qed.


(** ** Reads of a file without a key record *)

Section Unkeyed.

Context {F : Type}.
Variable io : sqlite3_io_methods F.
Variable cng : CNG.
Variable fresh : bool -> nat -> Z.



End Unkeyed.


(** ** The page grid *)

Lemma request_pages (iAmt iOfst : Z) :
  request_ok iAmt iOfst ->
  first_page iOfst = iOfst / PAGE_SIZE
  ∧ last_page iAmt iOfst = (iOfst + iAmt - 1) / PAGE_SIZE
  ∧ first_skip iOfst = iOfst mod PAGE_SIZE.
Proof.
  intros (H0 & Ha & Hb). unfold first_page, last_page, first_skip. consts.
  rewrite (to_int64_small (iOfst + iAmt - 1)) by lia.
  rewrite !Z.quot_div_nonneg, Z.rem_mod_nonneg by lia.
  pose proof (Z.div_mod iOfst 4096 ltac:(lia)).
  pose proof (Z.mod_pos_bound iOfst 4096 ltac:(lia)).
  pose proof (Z.div_mod (iOfst + iAmt - 1) 4096 ltac:(lia)).
  pose proof (Z.mod_pos_bound (iOfst + iAmt - 1) 4096 ltac:(lia)).
  repeat split; apply to_int_small; lia.
Qed.

(** The grid in linear form, for [lia]. *)
Lemma request_grid (iAmt iOfst : Z) :
  request_ok iAmt iOfst ->
  let s := first_page iOfst in
  let e := last_page iAmt iOfst in
  let k := first_skip iOfst in
  0 <= k < PAGE_SIZE
  ∧ iOfst = PAGE_SIZE * s + k
  ∧ PAGE_SIZE * e <= iOfst + iAmt - 1 < PAGE_SIZE * e + PAGE_SIZE
  ∧ 0 <= s <= e ∧ e < 2 ^ 31.
Proof.
  intros Hreq. destruct (request_pages _ _ Hreq) as (-> & -> & ->).
  destruct Hreq as (H0 & Ha & Hb). consts. cbv zeta.
  pose proof (Z.div_mod iOfst 4096 ltac:(lia)).
  pose proof (Z.mod_pos_bound iOfst 4096 ltac:(lia)).
  pose proof (Z.div_mod (iOfst + iAmt - 1) 4096 ltac:(lia)).
  pose proof (Z.mod_pos_bound (iOfst + iAmt - 1) 4096 ltac:(lia)).
  repeat split; try lia.
Qed.

Lemma log_chunks_app (l1 l2 : list event) :
  log_chunks (l1 ++ l2) = log_chunks l1 ++ log_chunks l2.
Proof. unfold log_chunks. by rewrite fmap_app, concat_app. Qed.

Lemma log_chunks_silent (l : list event) :
  Forall (fun ev => event_chunk ev = []) l -> log_chunks l = [].
Proof.
  induction 1 as [|ev l Hev _ IH]; [done|].
  change (log_chunks (ev :: l)) with (event_chunk ev ++ log_chunks l).
  by rewrite Hev, IH.
Qed.

Section Paging.

Context {F : Type}.
Variable io : sqlite3_io_methods F.
Variable cng : CNG.
Variable fresh : bool -> nat -> Z.
Variable p : WeChatFile F.

(** The loop body, with the results of its two calls named. *)
Lemma read_page_cases (iAmt start_page start_offset page_num : Z)
    (st : loop_state) :
  let page_offset := to_int64 (page_num * PAGE_SIZE) in
  let x := call_xRead io (real_file p) (ls_enc st) PAGE_SIZE page_offset in
  let d := decrypt_page cng (keys p) page_num x.2 (ls_dec st) in
  let log1 := ls_log st ++ [EvRead page_num PAGE_SIZE page_offset x.1] in
  let copy_offset := if page_num =? start_page then start_offset else 0 in
  let bytes_in_page := to_int (PAGE_SIZE - copy_offset) in
  let bytes_remaining := to_int (iAmt - ls_written st) in
  let bytes_to_copy :=
    if bytes_in_page <? bytes_remaining then bytes_in_page else bytes_remaining in
  read_page io cng p iAmt start_page start_offset page_num st
  = if negb (x.1 =? SQLITE_OK) then
      Return x.1 {| ls_enc := x.2; ls_dec := ls_dec st; ls_out := ls_out st;
                    ls_written := ls_written st; ls_log := log1 |}
    else if negb (pr_ok d) then
      Return SQLITE_ERROR
             {| ls_enc := pr_enc d; ls_dec := pr_dec d; ls_out := ls_out st;
                ls_written := ls_written st; ls_log := log1 ++ pr_events d |}
    else
      Continue
        {| ls_enc := pr_enc d; ls_dec := pr_dec d;
           ls_out := memcpy (ls_out st) (ls_written st) (pr_dec d)
                            copy_offset bytes_to_copy;
           ls_written := to_int (ls_written st + bytes_to_copy);
           ls_log := (log1 ++ pr_events d)
                       ++ [EvCopy page_num (pr_dec d) (ls_written st)
                                  copy_offset bytes_to_copy] |}.
Proof.
  cbv zeta. unfold read_page.
  destruct (call_xRead _ _ _ _ _) as [rc enc]. cbn [fst snd].
  destruct (negb (rc =? SQLITE_OK)); [done|]. done.
Qed.

Lemma decrypt_page_silent (iAmt iOfst : Z) (k : option EncryptionKeys)
    (page_num : Z) (enc dec : list Z) :
  Forall (fun ev => event_chunk ev = []) (pr_events (decrypt_page cng k page_num enc dec))
  ∧ Forall (copy_ok iAmt iOfst) (pr_events (decrypt_page cng k page_num enc dec)).
Proof.
  unfold decrypt_page. destruct k as [ks|]; simpl; [|by split].
  destruct (aes_decrypt_cbc _ _ _ _ _ _ _) as [[ok enc1] dec1].
  destruct ok; simpl; split; repeat constructor.
Qed.

End Paging.

Section Reaching.

Context {F : Type}.
Variable io : sqlite3_io_methods F.
Variable cng : CNG.
Variable fresh : bool -> nat -> Z.
Variable p : WeChatFile F.
Variable zBuf : list Z.
Variables iAmt iOfst : Z.
Hypothesis Hreq : request_ok iAmt iOfst.
Hypothesis Hbuf : (Z.to_nat iAmt <= length zBuf)%nat.

(** Entries that copy nothing leave the loop where it is. *)
Lemma reached_silent (page_num : Z) (st : loop_state) (enc dec : list Z)
    (evs : list event) :
  reached zBuf iAmt iOfst page_num st ->
  length enc = Z.to_nat PAGE_SIZE -> length dec = Z.to_nat PAGE_SIZE ->
  Forall (fun ev => event_chunk ev = []) evs ->
  Forall (copy_ok iAmt iOfst) evs ->
  reached zBuf iAmt iOfst page_num
          {| ls_enc := enc; ls_dec := dec; ls_out := ls_out st;
             ls_written := ls_written st; ls_log := ls_log st ++ evs |}.
Proof.
  intros (Hb & Hw & Hout & Hlen & Hcp) He Hd Hs Hc.
  unfold reached, buffers_ok. cbn [ls_enc ls_dec ls_out ls_written ls_log].
  rewrite log_chunks_app, (log_chunks_silent evs Hs), app_nil_r, Forall_app.
  done.
Qed.

(** The copy of a page takes the loop to the next page. *)
Lemma reached_copy (page_num : Z) (st : loop_state) :
  first_page iOfst <= page_num <= last_page iAmt iOfst ->
  reached zBuf iAmt iOfst page_num st ->
  let copy_offset := if page_num =? first_page iOfst then first_skip iOfst else 0 in
  let bytes_in_page := to_int (PAGE_SIZE - copy_offset) in
  let bytes_remaining := to_int (iAmt - ls_written st) in
  let bytes_to_copy :=
    if bytes_in_page <? bytes_remaining then bytes_in_page else bytes_remaining in
  reached zBuf iAmt iOfst (page_num + 1)
          {| ls_enc := ls_enc st; ls_dec := ls_dec st;
             ls_out := memcpy (ls_out st) (ls_written st) (ls_dec st)
                              copy_offset bytes_to_copy;
             ls_written := to_int (ls_written st + bytes_to_copy);
             ls_log := ls_log st ++ [EvCopy page_num (ls_dec st) (ls_written st)
                                            copy_offset bytes_to_copy] |}.
Proof.
  intros Hpn (Hb & Hw & Hout & Hlen & Hcp).
  pose proof (request_grid _ _ Hreq) as (Hk & Hofs & He & Hse & He31).
  destruct Hreq as (H0 & Ha & Hmax). cbv zeta in *.
  set (s := first_page iOfst) in *. set (e := last_page iAmt iOfst) in *.
  set (k := first_skip iOfst) in *.
  set (co := if page_num =? s then k else 0).
  set (w := ls_written st) in *.
  assert (Hco : 0 <= co < PAGE_SIZE ∧ PAGE_SIZE * page_num + co = iOfst + w).
  { subst co. unfold written_before in Hw. consts.
    destruct (Z.eqb_spec page_num s); lia. }
  assert (Hwa : 0 <= w < iAmt) by (unfold written_before in Hw; consts; lia).
  rewrite (to_int_small (PAGE_SIZE - co)) by (consts; lia).
  rewrite (to_int_small (iAmt - w)) by lia.
  set (n := if PAGE_SIZE - co <? iAmt - w then PAGE_SIZE - co else iAmt - w).
  assert (Hn : n = Z.min (PAGE_SIZE - co) (iAmt - w))
    by (subst n; destruct (Z.ltb_spec (PAGE_SIZE - co) (iAmt - w)); lia).
  assert (Hn0 : 0 < n) by lia.
  assert (Hnext : w + n = written_before iAmt iOfst (page_num + 1))
    by (unfold written_before in *; consts; lia).
  rewrite (to_int_small (w + n)) by lia.
  destruct Hb as [Hbe Hbd].
  assert (Hchunk : length (sub_bytes (ls_dec st) co n) = Z.to_nat n)
    by (apply length_sub_bytes; rewrite Hbd; consts; lia).
  unfold reached, buffers_ok. cbn [ls_enc ls_dec ls_out ls_written ls_log].
  rewrite log_chunks_app. unfold log_chunks at 2 4. simpl. rewrite app_nil_r.
  repeat split; try done.
  - unfold memcpy. rewrite Hout.
    rewrite <- (take_drop (Z.to_nat n) (drop (Z.to_nat w) zBuf)).
    rewrite store_at.
    + rewrite drop_drop, <- app_assoc. repeat f_equal. lia.
    + done.
    + rewrite length_take, length_drop, Hchunk. lia.
  - rewrite length_app, Hlen, Hchunk. lia.
  - rewrite Forall_app. split; [done|]. repeat constructor; try done; lia.
Qed.

Lemma read_page_reached (page_num : Z) (st : loop_state) :
  first_page iOfst <= page_num <= last_page iAmt iOfst ->
  reached zBuf iAmt iOfst page_num st ->
  match read_page io cng p iAmt (first_page iOfst) (first_skip iOfst) page_num st with
  | Continue st' => reached zBuf iAmt iOfst (page_num + 1) st'
  | Return rc st' => rc ≠ SQLITE_OK ∧ reached zBuf iAmt iOfst page_num st'
  end.
Proof.
  intros Hpn Hst. rewrite read_page_cases. cbv zeta.
  set (x := call_xRead io (real_file p) (ls_enc st) PAGE_SIZE
              (to_int64 (page_num * PAGE_SIZE))).
  set (d := decrypt_page cng (keys p) page_num x.2 (ls_dec st)).
  pose proof Hst as ([Hbe Hbd] & _).
  assert (Hx : length x.2 = Z.to_nat PAGE_SIZE)
    by (subst x; rewrite length_call_xRead; lia).
  destruct (length_decrypt_page cng (keys p) page_num x.2 (ls_dec st) Hx Hbd)
    as [He Hd]. fold d in He, Hd.
  destruct (decrypt_page_silent cng iAmt iOfst (keys p) page_num x.2 (ls_dec st))
    as [Hs Hc]. fold d in Hs, Hc.
  destruct (x.1 =? SQLITE_OK) eqn:Hrc; cbn [negb].
  - destruct (pr_ok d) eqn:Hok; cbn [negb].
    + pose proof (reached_silent page_num st (pr_enc d) (pr_dec d)
                    (EvRead page_num PAGE_SIZE (to_int64 (page_num * PAGE_SIZE)) x.1
                       :: pr_events d) Hst He Hd) as Hmid.
      rewrite <- (app_assoc (ls_log st) [_] (pr_events d)).
      exact (reached_copy page_num _ Hpn
               (Hmid ltac:(by constructor) ltac:(by constructor))).
    + split; [done|]. rewrite <- (app_assoc (ls_log st) [_] (pr_events d)).
      apply reached_silent; try done; by constructor.
  - split; [by apply Z.eqb_neq|].
    apply reached_silent; try done; by repeat constructor.
Qed.

(** The loop over consecutive pages. *)
Lemma read_pages_reached (n : nat) (page_num : Z) (st : loop_state) :
  first_page iOfst <= page_num ->
  page_num + Z.of_nat n <= last_page iAmt iOfst + 1 ->
  reached zBuf iAmt iOfst page_num st ->
  match read_pages io cng p iAmt (first_page iOfst) (first_skip iOfst)
                   (seqZ page_num (Z.of_nat n)) st with
  | Continue st' => reached zBuf iAmt iOfst (page_num + Z.of_nat n) st'
  | Return rc st' =>
      rc ≠ SQLITE_OK
      ∧ exists j, page_num <= j < page_num + Z.of_nat n ∧ reached zBuf iAmt iOfst j st'
  end.
Proof.
  revert page_num st. induction n as [|n IH]; intros page_num st Hlo Hhi Hst.
  - simpl. by rewrite Z.add_0_r.
  - rewrite seqZ_cons by lia. simpl read_pages.
    pose proof (read_page_reached page_num st ltac:(lia) Hst) as Hstep.
    destruct (read_page _ _ _ _ _ _ _ _) as [st1|rc st1].
    + replace (Z.pred (Z.of_nat (S n))) with (Z.of_nat n) by lia.
      specialize (IH (Z.succ page_num) st1 ltac:(lia) ltac:(lia)).
      replace (Z.succ page_num) with (page_num + 1) in * by lia.
      specialize (IH Hstep).
      destruct (read_pages _ _ _ _ _ _ _ _) as [st2|rc st2].
      * replace (page_num + Z.of_nat (S n)) with (page_num + 1 + Z.of_nat n) by lia.
        done.
      * destruct IH as (Hrc & j & Hj & Hr). split; [done|].
        exists j. split; [lia | done].
    + destruct Hstep as [Hrc Hr]. split; [done|].
      exists page_num. split; [lia | done].
Qed.

Lemma start_state_reached (t : tls) :
  tls_ok t ->
  reached zBuf iAmt iOfst (first_page iOfst) (start_state fresh t zBuf).
Proof.
  intros Ht. destruct (start_state_ok fresh t zBuf Ht) as [Hb _].
  pose proof (request_grid _ _ Hreq) as (Hk & Hofs & He & Hse & He31).
  destruct Hreq as (H0 & Ha & Hmax). cbv zeta in *.
  split; [done|]. unfold start_state. cbn [ls_out ls_written ls_log].
  repeat split; try done.
  unfold written_before. consts. lia.
Qed.

(** The paged read, by what its loop reaches. *)
Lemma wechat_read_reached (t : tls) :
  decrypt_cb p = true -> tls_ok t ->
  let r := wechat_read io cng fresh p t zBuf iAmt iOfst in
  exists st j,
    rr_zBuf r = ls_out st ∧ rr_log r = ls_log st
    ∧ rr_tls r = {| g_encrypted_buffer := Some (ls_enc st);
                    g_decrypted_buffer := Some (ls_dec st) |}
    ∧ reached zBuf iAmt iOfst j st
    ∧ first_page iOfst <= j <= last_page iAmt iOfst + 1
    ∧ (rr_rc r = SQLITE_OK -> j = last_page iAmt iOfst + 1).
Proof.
  intros Hcb Ht. rewrite wechat_read_paged by done. cbv zeta.
  pose proof (request_grid _ _ Hreq) as (Hk & Hofs & He & Hse & He31).
  cbv zeta in *. unfold page_range.
  set (s := first_page iOfst) in *. set (e := last_page iAmt iOfst) in *.
  pose proof (read_pages_reached (Z.to_nat (e - s + 1)) s (start_state fresh t zBuf)
                ltac:(lia) ltac:(lia) (start_state_reached t Ht)) as Hloop.
  rewrite Z2Nat.id in Hloop by lia.
  destruct (read_pages _ _ _ _ _ _ _ _) as [st|rc st]; cbn [outcome_state finish rr_rc rr_zBuf rr_log rr_tls].
  - exists st, (e + 1). replace (s + (e - s + 1)) with (e + 1) in Hloop by lia.
    do 3 (split; [done|]). split; [exact Hloop|]. split; [lia | done].
  - destruct Hloop as (Hrc & j & Hj & Hr). exists st, j.
    do 3 (split; [done|]). split; [exact Hr|]. split; [lia | done].
Qed.

End Reaching.

(** ** What a paged read does to the caller's buffer *)

Section CallerBuffer.

Context {F : Type}.
Variable io : sqlite3_io_methods F.
Variable cng : CNG.
Variable fresh : bool -> nat -> Z.

(** C10: a read that takes the page loop (a keyed read does) never writes at
    or after index [iAmt] of the caller's buffer; each copy starts where the
    previous one stopped, skips [start_offset] bytes of the decrypted page on
    the first page only, and takes the smaller of what is left of the page
    and what is left of the request; and when the read succeeds the first
    [iAmt] bytes of the buffer are exactly the bytes copied, [iAmt] of
    them. *)
Theorem read_writes_exactly_the_amount (p : WeChatFile F) (t : tls)
    (zBuf : list Z) (iAmt iOfst : Z) :
  decrypt_cb p = true ->
  tls_ok t ->
  request_ok iAmt iOfst ->
  (Z.to_nat iAmt <= length zBuf)%nat ->
  let r := wechat_read io cng fresh p t zBuf iAmt iOfst in
  length (rr_zBuf r) = length zBuf
  ∧ drop (Z.to_nat iAmt) (rr_zBuf r) = drop (Z.to_nat iAmt) zBuf
  ∧ (forall page_num decrypted bytes_written copy_offset bytes_to_copy,
        EvCopy page_num decrypted bytes_written copy_offset bytes_to_copy
          ∈ rr_log r ->
        copy_offset = (if page_num =? iOfst / PAGE_SIZE
                       then iOfst mod PAGE_SIZE else 0)
        ∧ bytes_to_copy = Z.min (PAGE_SIZE - copy_offset) (iAmt - bytes_written)
        ∧ bytes_written = written_before iAmt iOfst page_num
        ∧ 0 < bytes_to_copy
        ∧ bytes_written + bytes_to_copy = written_before iAmt iOfst (page_num + 1)
        ∧ bytes_written + bytes_to_copy <= iAmt)
  ∧ (rr_rc r = SQLITE_OK ->
       take (Z.to_nat iAmt) (rr_zBuf r) = log_chunks (rr_log r)
       ∧ length (log_chunks (rr_log r)) = Z.to_nat iAmt).
Proof.
  intros Hcb Ht Hreq Hbuf r.
  destruct (wechat_read_reached io cng fresh p zBuf iAmt iOfst Hreq Hbuf t Hcb Ht)
    as (st & j & Hout & Hlog & _ & Hr & Hj & Hok).
  fold r in Hout, Hlog, Hok. rewrite Hout, Hlog.
  destruct Hr as (_ & Hw & Hso & Hlen & Hcp).
  pose proof (request_grid _ _ Hreq) as (Hk & Hofs & He & Hse & He31).
  destruct (request_pages _ _ Hreq) as (Hfp & _ & Hfs).
  pose proof Hreq as (H0 & Ha & Hmax). cbv zeta in *.
  assert (Hwa : 0 <= ls_written st <= iAmt)
    by (rewrite Hw; unfold written_before; consts; lia).
  split; [|split; [|split]].
  - rewrite Hso, length_app, Hlen, length_drop. lia.
  - rewrite Hso, drop_app_ge by lia. rewrite drop_drop, Hlen. f_equal. lia.
  - intros page_num decrypted w co n Hin.
    rewrite Forall_forall in Hcp. specialize (Hcp _ Hin).
    destruct Hcp as (Hp & -> & -> & -> & Hn & Hnext).
    rewrite <- Hfp, <- Hfs. repeat split; try done.
    rewrite Hnext. unfold written_before. lia.
  - intros Hrc. specialize (Hok Hrc). subst j.
    assert (Hall : ls_written st = iAmt)
      by (rewrite Hw; unfold written_before; consts; lia).
    rewrite Hall in *. split; [|done].
    rewrite Hso. by apply take_app_length'.
Qed.

(** C6: when the platform read of a page the request intersects returns a
    status other than [SQLITE_OK], and the pages before it went through,
    the read returns that status; the caller's buffer is as those pages
    left it; and the failed read is the last thing the read did, so no
    later page is touched. *)
Theorem failed_page_read_aborts (p : WeChatFile F) (t : tls) (zBuf : list Z)
    (iAmt iOfst : Z) (before after : list Z) (j : Z) (st : loop_state)
    (rc : Z) (data : list Z) :
  decrypt_cb p = true ->
  page_range (first_page iOfst) (last_page iAmt iOfst) = before ++ j :: after ->
  read_pages io cng p iAmt (first_page iOfst) (first_skip iOfst) before
             (start_state fresh t zBuf) = Continue st ->
  xRead io (real_file p) PAGE_SIZE (to_int64 (j * PAGE_SIZE)) = (rc, data) ->
  rc ≠ SQLITE_OK ->
  let r := wechat_read io cng fresh p t zBuf iAmt iOfst in
  rr_rc r = rc
  ∧ rr_zBuf r = ls_out st
  ∧ rr_log r = ls_log st ++ [EvRead j PAGE_SIZE (to_int64 (j * PAGE_SIZE)) rc].
Proof.
  intros Hcb Hpages Hbefore Hx Hrc r. subst r.
  rewrite wechat_read_paged by done. cbv zeta.
  rewrite Hpages, read_pages_app, Hbefore. simpl read_pages.
  rewrite read_page_cases. cbv zeta. unfold call_xRead. rewrite Hx.
  cbn [fst snd]. apply Z.eqb_neq in Hrc. rewrite Hrc. by cbn.
Qed.

End CallerBuffer.

Lemma read_writes_exactly_the_amount_witness :
  let r := wechat_read mem_io xor_cng zero_fresh (keyed_file two_pages)
                       no_buffers (zeros 30) 20 4086 in
  request_ok 20 4086
  ∧ rr_rc r = SQLITE_OK
  ∧ length (rr_zBuf r) = length (zeros 30)
  ∧ drop (Z.to_nat 20) (rr_zBuf r) = drop (Z.to_nat 20) (zeros 30)
  ∧ take (Z.to_nat 20) (rr_zBuf r) = log_chunks (rr_log r)
  ∧ length (log_chunks (rr_log r)) = Z.to_nat 20.
Proof.
  assert (Hreq : request_ok 20 4086) by (unfold request_ok; lia).
  assert (Hrc : rr_rc (wechat_read mem_io xor_cng zero_fresh (keyed_file two_pages)
                                   no_buffers (zeros 30) 20 4086) = SQLITE_OK)
    by (vm_compute; reflexivity).
  destruct (read_writes_exactly_the_amount mem_io xor_cng zero_fresh
              (keyed_file two_pages) no_buffers (zeros 30) 20 4086
              eq_refl no_buffers_ok Hreq ltac:(vm_compute; lia))
    as (Hlen & Hframe & _ & Hok).
  destruct (Hok Hrc) as [Htake Hall].
  exact (conj Hreq (conj Hrc (conj Hlen (conj Hframe (conj Htake Hall))))).
Defined.

Lemma failed_page_read_aborts_witness :
  let p := keyed_file torn_file in
  let st := outcome_state
              (read_pages mem_io xor_cng p 8192 (first_page 0) (first_skip 0) [0]
                          (start_state zero_fresh no_buffers (zeros 8192))) in
  let r := wechat_read mem_io xor_cng zero_fresh p no_buffers (zeros 8192) 8192 0 in
  SQLITE_IOERR_SHORT_READ ≠ SQLITE_OK
  ∧ rr_rc r = SQLITE_IOERR_SHORT_READ
  ∧ rr_zBuf r = ls_out st
  ∧ rr_log r = ls_log st ++ [EvRead 1 PAGE_SIZE (to_int64 (1 * PAGE_SIZE))
                                    SQLITE_IOERR_SHORT_READ].
Proof.
  assert (Hne : SQLITE_IOERR_SHORT_READ ≠ SQLITE_OK) by discriminate.
  split; [exact Hne|].
  apply (failed_page_read_aborts mem_io xor_cng zero_fresh (keyed_file torn_file)
           no_buffers (zeros 8192) 8192 0 [0] [] 1 _ SQLITE_IOERR_SHORT_READ
           (mem_xRead torn_file PAGE_SIZE (to_int64 (1 * PAGE_SIZE))).2);
    [reflexivity | vm_compute; reflexivity | vm_compute; reflexivity
    | vm_compute; reflexivity | exact Hne].
Defined.

(** ** Reads against the decrypted file *)

Section Plain.

Context {F : Type}.
Variable io : sqlite3_io_methods F.
Variable cng : CNG.
Variable fresh : bool -> nat -> Z.
Variable p : WeChatFile F.
Hypothesis Hread : xRead_exact io (real_file p).
Hypothesis Hcipher : decrypt_exact cng.

(** With a cipher that fills its output, the decryption block overwrites
    the whole decrypted buffer: what was in it does not matter. *)
Lemma decrypt_page_any_buffer (k : option EncryptionKeys) (page_num : Z)
    (enc dec dec' : list Z) :
  length enc = Z.to_nat PAGE_SIZE ->
  length dec = Z.to_nat PAGE_SIZE -> length dec' = Z.to_nat PAGE_SIZE ->
  pr_ok (decrypt_page cng k page_num enc dec) = pr_ok (decrypt_page cng k page_num enc dec')
  ∧ (pr_ok (decrypt_page cng k page_num enc dec) = true ->
     pr_dec (decrypt_page cng k page_num enc dec)
     = pr_dec (decrypt_page cng k page_num enc dec')).
Proof.
  intros He Hd Hd'. destruct k as [ks|].
  - destruct (BCryptOpenAlgorithmProvider cng) eqn:H1;
      [|unfold decrypt_page, aes_decrypt_cbc; rewrite H1; by cbn].
    destruct (BCryptSetProperty cng) eqn:H2;
      [|unfold decrypt_page, aes_decrypt_cbc; rewrite H1, H2; by cbn].
    destruct (BCryptGenerateSymmetricKey cng (take 32 (encKey ks))) eqn:H3;
      [|unfold decrypt_page, aes_decrypt_cbc; rewrite H1, H2, H3; by cbn].
    set (offset := if page_num =? 0 then SALT_SIZE else 0).
    destruct (BCryptDecrypt cng (take 32 (encKey ks))
                (sub_bytes enc offset (PAGE_SIZE - RESERVE_SIZE - offset))
                (sub_bytes enc (PAGE_SIZE - RESERVE_SIZE) IV_SIZE))
      as [[status output] iv_after] eqn:H4.
    destruct status.
    + assert (Hlen : length output = Z.to_nat (PAGE_SIZE - RESERVE_SIZE - offset)).
      { rewrite (Hcipher _ _ _ _ _ H4). apply length_sub_bytes.
        rewrite He. subst offset. consts. case_match; lia. }
      rewrite (decrypt_page_layout cng ks page_num enc dec output iv_after),
              (decrypt_page_layout cng ks page_num enc dec' output iv_after); done.
    + unfold decrypt_page, aes_decrypt_cbc. fold offset.
      rewrite H1, H2, H3. cbn [negb]. rewrite H4. by cbn.
  - unfold decrypt_page, memcpy. cbn [pr_ok pr_dec].
    rewrite sub_bytes_whole by done.
    rewrite !store_whole by congruence. done.
Qed.

Lemma plain_page_length (page_num : Z) (pg : list Z) :
  plain_page io cng p page_num = Some pg -> length pg = Z.to_nat PAGE_SIZE.
Proof.
  unfold plain_page.
  destruct (xRead _ _ _ _) as [rc data] eqn:Hx.
  destruct (Z.eqb_spec rc SQLITE_OK) as [->|]; [|done].
  destruct (length_decrypt_page cng (keys p) page_num data (zeros PAGE_SIZE)
              (Hread _ _ _ Hx) ltac:(apply length_replicate)) as [_ Hl].
  cbv zeta. destruct (pr_ok _); [|done]. by intros [= <-].
Qed.

(** The loop body against [plain_page]: the page it copies from is the
    plain page, and it returns early exactly when there is none. *)
Lemma read_page_plain (iAmt start_page start_offset page_num : Z)
    (st : loop_state) :
  buffers_ok st -> - 2 ^ 31 <= page_num < 2 ^ 31 ->
  match read_page io cng p iAmt start_page start_offset page_num st with
  | Continue st' => plain_page io cng p page_num = Some (ls_dec st')
  | Return _ _ => plain_page io cng p page_num = None
  end.
Proof.
  intros [Hbe Hbd] Hpn. rewrite read_page_cases. cbv zeta.
  unfold plain_page, call_xRead.
  rewrite (to_int64_small (page_num * PAGE_SIZE)) by (consts; lia).
  destruct (xRead _ _ _ _) as [rc data] eqn:Hx. cbn [fst snd].
  destruct (Z.eqb_spec rc SQLITE_OK) as [->|]; cbn [negb]; [|done].
  pose proof (Hread _ _ _ Hx) as Hdata.
  rewrite (take_ge data) by lia.
  rewrite store_whole by congruence.
  destruct (decrypt_page_any_buffer (keys p) page_num data (ls_dec st)
              (zeros PAGE_SIZE) Hdata Hbd ltac:(apply length_replicate))
    as [Hok Hdec].
  rewrite <- Hok.
  destruct (pr_ok (decrypt_page cng (keys p) page_num data (ls_dec st)));
    cbn [negb ls_dec]; [|done].
  by rewrite Hdec.
Qed.

End Plain.

Section Bytes.

Context {F : Type}.
Variable io : sqlite3_io_methods F.
Variable cng : CNG.
Variable p : WeChatFile F.

Lemma byte_at_page (page_num co : Z) (pg : list Z) :
  plain_page io cng p page_num = Some pg ->
  0 <= co < PAGE_SIZE ->
  byte_at io cng p (PAGE_SIZE * page_num + co) = pg !! Z.to_nat co.
Proof.
  intros Hpg Hco. unfold byte_at.
  rewrite <- (Z.div_unique_pos (PAGE_SIZE * page_num + co) PAGE_SIZE page_num co)
    by (consts; lia).
  rewrite <- (Z.mod_unique_pos (PAGE_SIZE * page_num + co) PAGE_SIZE page_num co)
    by (consts; lia).
  by rewrite Hpg.
Qed.

Lemma byte_at_no_page (page_num co : Z) :
  plain_page io cng p page_num = None ->
  0 <= co < PAGE_SIZE ->
  byte_at io cng p (PAGE_SIZE * page_num + co) = None.
Proof.
  intros Hpg Hco. unfold byte_at.
  rewrite <- (Z.div_unique_pos (PAGE_SIZE * page_num + co) PAGE_SIZE page_num co)
    by (consts; lia).
  by rewrite Hpg.
Qed.

Lemma chunk_bytes (page_num : Z) (pg : list Z) (n : nat) (co : Z) :
  plain_page io cng p page_num = Some pg ->
  length pg = Z.to_nat PAGE_SIZE ->
  0 <= co -> co + Z.of_nat n <= PAGE_SIZE ->
  Forall2 (fun a b => byte_at io cng p a = Some b)
          (seqZ (PAGE_SIZE * page_num + co) (Z.of_nat n))
          (take n (drop (Z.to_nat co) pg)).
Proof.
  intros Hpg Hlen. revert co. induction n as [|n IH]; intros co H0 Hn.
  - constructor.
  - rewrite seqZ_cons by lia.
    destruct (lookup_lt_is_Some_2 pg (Z.to_nat co)) as [b Hb]; [lia|].
    rewrite (drop_S _ _ _ Hb). cbn [take].
    constructor.
    + rewrite (byte_at_page page_num co pg Hpg) by lia. done.
    + replace (Z.pred (Z.of_nat (S n))) with (Z.of_nat n) by lia.
      replace (Z.succ (PAGE_SIZE * page_num + co))
        with (PAGE_SIZE * page_num + (co + 1)) by lia.
      replace (S (Z.to_nat co)) with (Z.to_nat (co + 1)) by lia.
      apply IH; lia.
Qed.

Lemma bytes_from_app (iOfst : Z) (bs1 bs2 : list Z) :
  bytes_from io cng p iOfst bs1 ->
  bytes_from io cng p (iOfst + Z.of_nat (length bs1)) bs2 ->
  bytes_from io cng p iOfst (bs1 ++ bs2).
Proof.
  unfold bytes_from. intros H1 H2.
  rewrite length_app, Nat2Z.inj_add, seqZ_app by lia.
  by apply Forall2_app.
Qed.

Lemma bytes_from_unique (iOfst : Z) (bs bs' : list Z) :
  length bs = length bs' ->
  bytes_from io cng p iOfst bs -> bytes_from io cng p iOfst bs' -> bs = bs'.
Proof.
  unfold bytes_from. intros Hl. rewrite <- Hl.
  generalize (seqZ iOfst (Z.of_nat (length bs))). clear Hl.
  intros l H. revert bs'. induction H as [|a b l bs Hab _ IH]; intros bs' H'.
  - by inversion H'.
  - inversion H' as [|a' b' l' bs'' Hab' Hrest]; subst.
    f_equal; [congruence | by apply IH].
Qed.

Lemma bytes_from_readable (iOfst : Z) (bs : list Z) (a : Z) :
  bytes_from io cng p iOfst bs ->
  iOfst <= a < iOfst + Z.of_nat (length bs) ->
  is_Some (byte_at io cng p a).
Proof.
  unfold bytes_from. intros H Ha.
  assert (Hin : a ∈ seqZ iOfst (Z.of_nat (length bs)))
    by (apply elem_of_seqZ; lia).
  apply list_elem_of_lookup in Hin as [i Hi].
  destruct (Forall2_lookup_l _ _ _ _ _ H Hi) as (b & _ & Hb). by exists b.
Qed.

End Bytes.

Section PlainLoop.

Context {F : Type}.
Variable io : sqlite3_io_methods F.
Variable cng : CNG.
Variable fresh : bool -> nat -> Z.
Variable p : WeChatFile F.
Variable zBuf : list Z.
Variables iAmt iOfst : Z.
Hypothesis Hreq : request_ok iAmt iOfst.
Hypothesis Hbuf : (Z.to_nat iAmt <= length zBuf)%nat.
Hypothesis Hread : xRead_exact io (real_file p).
Hypothesis Hcipher : decrypt_exact cng.

Lemma read_page_log (start_page start_offset page_num : Z) (st : loop_state) :
  match read_page io cng p iAmt start_page start_offset page_num st with
  | Continue st' =>
      exists evs co n,
        Forall (fun ev => event_chunk ev = []) evs
        ∧ ls_log st' = ls_log st ++ evs
                         ++ [EvCopy page_num (ls_dec st') (ls_written st) co n]
  | Return _ _ => True
  end.
Proof.
  rewrite read_page_cases. cbv zeta.
  set (x := call_xRead io (real_file p) (ls_enc st) PAGE_SIZE
              (to_int64 (page_num * PAGE_SIZE))).
  set (d := decrypt_page cng (keys p) page_num x.2 (ls_dec st)).
  destruct (negb _); [exact I|]. destruct (negb _); [exact I|].
  exists (EvRead page_num PAGE_SIZE (to_int64 (page_num * PAGE_SIZE)) x.1
            :: pr_events d).
  eexists _, _. split.
  - constructor; [done|].
    apply (decrypt_page_silent cng iAmt iOfst).
  - cbn [ls_log ls_dec ls_written].
    rewrite <- (app_assoc (ls_log st) [_] (pr_events d)), <- app_assoc. reflexivity.
Qed.

Lemma read_page_bytes (page_num : Z) (st : loop_state) :
  first_page iOfst <= page_num <= last_page iAmt iOfst ->
  reached zBuf iAmt iOfst page_num st ->
  bytes_from io cng p iOfst (log_chunks (ls_log st)) ->
  match read_page io cng p iAmt (first_page iOfst) (first_skip iOfst) page_num st with
  | Continue st' => bytes_from io cng p iOfst (log_chunks (ls_log st'))
  | Return _ _ => plain_page io cng p page_num = None
  end.
Proof.
  intros Hpn Hst Hbytes.
  pose proof (request_grid _ _ Hreq) as (Hk & Hofs & He & Hse & He31).
  pose proof Hreq as (H0 & Ha & Hmax). cbv zeta in *.
  pose proof (read_page_reached io cng p zBuf iAmt iOfst Hreq Hbuf page_num st Hpn Hst)
    as Hr'.
  pose proof (read_page_plain io cng p Hread Hcipher iAmt (first_page iOfst)
                (first_skip iOfst) page_num st ltac:(apply Hst) ltac:(lia)) as Hpl.
  pose proof (read_page_log (first_page iOfst) (first_skip iOfst) page_num st) as Hlog.
  destruct (read_page _ _ _ _ _ _ _ _) as [st'|rc st']; [|done].
  destruct Hlog as (evs & co & n & Hsilent & Hlog).
  destruct Hst as (_ & Hw & _ & Hlen & _).
  destruct Hr' as (_ & _ & _ & _ & Hcp).
  rewrite Hlog, !Forall_app in Hcp. destruct Hcp as (_ & _ & Hcp).
  rewrite Forall_singleton in Hcp. unfold copy_ok in Hcp.
  destruct Hcp as (_ & _ & Hco & Hn & Hn0 & _).
  rewrite Hlog, !log_chunks_app, (log_chunks_silent evs Hsilent).
  cbn [app]. unfold log_chunks at 2. cbn [fmap list_fmap concat event_chunk].
  rewrite app_nil_r.
  pose proof (plain_page_length io cng p Hread _ _ Hpl) as Hpgl.
  assert (Hfit : 0 <= co < PAGE_SIZE ∧ co + n <= PAGE_SIZE
                 ∧ PAGE_SIZE * page_num + co = iOfst + ls_written st).
  { rewrite Hw. unfold written_before. consts.
    destruct (Z.eqb_spec page_num (first_page iOfst)); lia. }
  apply bytes_from_app; [done|]. unfold bytes_from.
  rewrite length_sub_bytes by (rewrite Hpgl; consts; lia).
  rewrite Hlen. rewrite (Z2Nat.id (ls_written st)) by (rewrite Hw; unfold written_before; lia).
  replace (iOfst + ls_written st) with (PAGE_SIZE * page_num + co) by lia.
  apply chunk_bytes; try done; lia.
Qed.

Lemma read_pages_bytes (n : nat) (page_num : Z) (st : loop_state) :
  first_page iOfst <= page_num ->
  page_num + Z.of_nat n <= last_page iAmt iOfst + 1 ->
  reached zBuf iAmt iOfst page_num st ->
  bytes_from io cng p iOfst (log_chunks (ls_log st)) ->
  match read_pages io cng p iAmt (first_page iOfst) (first_skip iOfst)
                   (seqZ page_num (Z.of_nat n)) st with
  | Continue st' => bytes_from io cng p iOfst (log_chunks (ls_log st'))
  | Return _ _ =>
      exists j, page_num <= j < page_num + Z.of_nat n
                ∧ plain_page io cng p j = None
  end.
Proof.
  revert page_num st. induction n as [|n IH]; intros page_num st Hlo Hhi Hst Hb.
  - done.
  - rewrite seqZ_cons by lia. simpl read_pages.
    pose proof (read_page_reached io cng p zBuf iAmt iOfst Hreq Hbuf page_num st
                  ltac:(lia) Hst) as Hr'.
    pose proof (read_page_bytes page_num st ltac:(lia) Hst Hb) as Hb'.
    destruct (read_page _ _ _ _ _ _ _ _) as [st1|rc st1].
    + replace (Z.pred (Z.of_nat (S n))) with (Z.of_nat n) by lia.
      specialize (IH (Z.succ page_num) st1 ltac:(lia) ltac:(lia)).
      replace (Z.succ page_num) with (page_num + 1) in * by lia.
      specialize (IH Hr' Hb').
      destruct (read_pages _ _ _ _ _ _ _ _) as [st2|rc st2]; [done|].
      destruct IH as (j & Hj & Hnone). exists j. split; [lia | done].
    + exists page_num. split; [lia | done].
Qed.

(** A paged read against the decrypted file: on success the caller gets
    its bytes from [iOfst] on; it fails only when a byte of the range is on
    a page that cannot be read or decrypted. *)
Lemma wechat_read_plain (t : tls) :
  decrypt_cb p = true -> tls_ok t ->
  let r := wechat_read io cng fresh p t zBuf iAmt iOfst in
  tls_ok (rr_tls r)
  ∧ (rr_rc r = SQLITE_OK ->
     length (take (Z.to_nat iAmt) (rr_zBuf r)) = Z.to_nat iAmt
     ∧ bytes_from io cng p iOfst (take (Z.to_nat iAmt) (rr_zBuf r)))
  ∧ (rr_rc r ≠ SQLITE_OK -> unreadable io cng p iOfst iAmt).
Proof.
  intros Hcb Ht r. subst r.
  pose proof (wechat_read_events_ok io cng fresh p t zBuf iAmt iOfst Ht) as [_ Htls].
  split; [exact Htls|]. clear Htls.
  rewrite wechat_read_paged by done. cbv zeta.
  pose proof (request_grid _ _ Hreq) as (Hk & Hofs & He & Hse & He31).
  pose proof Hreq as (H0 & Ha & Hmax). cbv zeta in *. unfold page_range.
  set (s := first_page iOfst) in *. set (e := last_page iAmt iOfst) in *.
  pose proof (read_pages_reached io cng p zBuf iAmt iOfst Hreq Hbuf
                (Z.to_nat (e - s + 1)) s (start_state fresh t zBuf)
                ltac:(lia) ltac:(lia)
                (start_state_reached fresh zBuf iAmt iOfst Hreq Hbuf t Ht)) as Hloop.
  pose proof (read_pages_bytes (Z.to_nat (e - s + 1)) s (start_state fresh t zBuf)
                ltac:(lia) ltac:(lia)
                (start_state_reached fresh zBuf iAmt iOfst Hreq Hbuf t Ht)
                ltac:(constructor)) as Hb.
  rewrite Z2Nat.id in Hloop, Hb by lia.
  destruct (read_pages _ _ _ _ _ _ _ _) as [st|rc st];
    cbn [outcome_state finish rr_rc rr_zBuf].
  - split; [intros _ | done].
    destruct Hloop as (_ & Hw & Hout & Hlen & _).
    assert (Hall : ls_written st = iAmt)
      by (rewrite Hw; unfold written_before; consts; lia).
    rewrite Hall in *. rewrite Hout, take_app_length' by done.
    split; [done | exact Hb].
  - destruct Hloop as (Hrc & _). split; [done | intros _].
    destruct Hb as (j & Hj & Hnone).
    destruct (Z.eq_dec j s) as [->|Hjs].
    + exists iOfst. split; [lia|].
      rewrite Hofs. apply byte_at_no_page; [done | lia].
    + exists (PAGE_SIZE * j + 0). split; [consts; lia|].
      apply byte_at_no_page; [done | consts; lia].
Qed.

End PlainLoop.

Lemma sumZ_nonneg (l : list Z) : Forall (fun n => 0 < n < 2 ^ 31) l -> 0 <= sumZ l.
Proof. induction 1; simpl; lia. Qed.

Section Splits.

Context {F : Type}.
Variable io : sqlite3_io_methods F.
Variable cng : CNG.
Variable fresh : bool -> nat -> Z.
Variable p : WeChatFile F.
Hypothesis Hcb : decrypt_cb p = true.
Hypothesis Hread : xRead_exact io (real_file p).
Hypothesis Hcipher : decrypt_exact cng.

Lemma unreadable_wider (iOfst n iOfst' n' : Z) :
  iOfst' <= iOfst -> iOfst + n <= iOfst' + n' ->
  unreadable io cng p iOfst n -> unreadable io cng p iOfst' n'.
Proof. intros H1 H2 (a & Ha & Hnone). exists a. split; [lia | done]. Qed.

Lemma read_split_spec (amounts : list Z) (t : tls) (iOfst : Z) :
  tls_ok t -> split_ok iOfst amounts ->
  match read_split io cng fresh p t iOfst amounts with
  | Some bs => length bs = Z.to_nat (sumZ amounts) ∧ bytes_from io cng p iOfst bs
  | None => unreadable io cng p iOfst (sumZ amounts)
  end.
Proof.
  revert t iOfst. induction amounts as [|n rest IH]; intros t iOfst Ht (H0 & Hall & Hmax).
  - simpl. split; [done | constructor].
  - apply Forall_cons in Hall as [Hn Hrest].
    pose proof (sumZ_nonneg rest Hrest) as Hsum. simpl in Hmax.
    simpl read_split. cbv zeta.
    assert (Hreq : request_ok n iOfst) by (unfold request_ok; lia).
    assert (Hbuf : (Z.to_nat n <= length (zeros n))%nat)
      by (unfold zeros; rewrite length_replicate; lia).
    destruct (wechat_read_plain io cng fresh p (zeros n) n iOfst Hreq Hbuf
                Hread Hcipher t Hcb Ht) as (Htls & Hok & Hfail).
    destruct (Z.eqb_spec (rr_rc (wechat_read io cng fresh p t (zeros n) n iOfst))
                         SQLITE_OK) as [Hrc|Hrc].
    + destruct (Hok Hrc) as [Hlen Hbytes].
      specialize (IH _ (iOfst + n) Htls ltac:(unfold split_ok; repeat split; try done; lia)).
      destruct (read_split _ _ _ _ _ _ _) as [bs|].
      * destruct IH as [Hlen' Hbytes']. split.
        -- rewrite length_app, Hlen, Hlen'. simpl. lia.
        -- apply bytes_from_app; [done|].
           rewrite Hlen, Z2Nat.id by lia. done.
      * simpl. eapply unreadable_wider; [| |exact IH]; lia.
    + simpl. eapply unreadable_wider; [| |exact (Hfail Hrc)]; lia.
Qed.

(** C5: the bytes a caller gets for a range do not depend on how it splits
    the range into requests: two series of consecutive requests from the
    same offset with the same total give the same bytes, or both fail; and
    a read of 20 bytes that starts 10 bytes before the end of page [K]
    returns the last 10 bytes of decrypted page [K] followed by the first
    10 bytes of decrypted page [K + 1] (for [K = 0] the offset is
    [PAGE_SIZE - 10]). *)
Theorem split_reads_agree (t1 t2 : tls) (iOfst : Z) (amounts1 amounts2 : list Z) :
  tls_ok t1 -> tls_ok t2 ->
  split_ok iOfst amounts1 -> split_ok iOfst amounts2 ->
  sumZ amounts1 = sumZ amounts2 ->
  read_split io cng fresh p t1 iOfst amounts1
  = read_split io cng fresh p t2 iOfst amounts2
  ∧ (forall (K : Z) (pK pK1 : list Z) (t : tls) (zBuf : list Z),
        0 <= K -> (K + 2) * PAGE_SIZE <= 2 ^ 43 ->
        tls_ok t -> (20 <= length zBuf)%nat ->
        plain_page io cng p K = Some pK ->
        plain_page io cng p (K + 1) = Some pK1 ->
        let r := wechat_read io cng fresh p t zBuf 20
                             (K * PAGE_SIZE + (PAGE_SIZE - 10)) in
        rr_rc r = SQLITE_OK
        ∧ take 20 (rr_zBuf r)
          = drop (Z.to_nat (PAGE_SIZE - 10)) pK ++ take 10 pK1).
Proof.
  intros Ht1 Ht2 Hs1 Hs2 Hsum. split.
  - pose proof (read_split_spec amounts1 t1 iOfst Ht1 Hs1) as H1.
    pose proof (read_split_spec amounts2 t2 iOfst Ht2 Hs2) as H2.
    destruct Hs1 as (_ & Hp1 & _). pose proof (sumZ_nonneg _ Hp1) as Hnn.
    destruct (read_split _ _ _ _ t1 _ _) as [bs1|],
             (read_split _ _ _ _ t2 _ _) as [bs2|].
    + destruct H1 as [Hl1 Hb1], H2 as [Hl2 Hb2]. f_equal.
      apply (bytes_from_unique io cng p iOfst); [congruence | done | done].
    + destruct H1 as [Hl1 Hb1], H2 as (a & Ha & Hnone).
      destruct (bytes_from_readable io cng p iOfst bs1 a Hb1) as [b Hb]; [lia|].
      congruence.
    + destruct H2 as [Hl2 Hb2], H1 as (a & Ha & Hnone).
      destruct (bytes_from_readable io cng p iOfst bs2 a Hb2) as [b Hb]; [lia|].
      congruence.
    + done.
  - intros K pK pK1 t zBuf HK Hmax Ht Hbuf HpK HpK1 r.
    assert (Hreq : request_ok 20 (K * PAGE_SIZE + (PAGE_SIZE - 10)))
      by (unfold request_ok; consts; lia).
    destruct (wechat_read_plain io cng fresh p zBuf 20 _ Hreq
                ltac:(simpl; lia) Hread Hcipher t Hcb Ht) as (_ & Hok & Hfail).
    fold r in Hok, Hfail.
    pose proof (plain_page_length io cng p Hread _ _ HpK) as HlK.
    pose proof (plain_page_length io cng p Hread _ _ HpK1) as HlK1.
    set (expected := drop (Z.to_nat (PAGE_SIZE - 10)) pK ++ take 10 pK1).
    assert (Hexp : bytes_from io cng p (K * PAGE_SIZE + (PAGE_SIZE - 10)) expected).
    { subst expected. apply bytes_from_app.
      - unfold bytes_from. rewrite length_drop, HlK.
        pose proof (chunk_bytes io cng p K pK 10 (PAGE_SIZE - 10) HpK HlK
                      ltac:(consts; lia) ltac:(consts; lia)) as Hc.
        rewrite take_ge in Hc by (rewrite length_drop, HlK; consts; lia).
        replace (PAGE_SIZE * K + (PAGE_SIZE - 10))
          with (K * PAGE_SIZE + (PAGE_SIZE - 10)) in Hc by lia.
        replace (Z.of_nat (Z.to_nat PAGE_SIZE - Z.to_nat (PAGE_SIZE - 10)))
          with (Z.of_nat 10) by (consts; lia).
        exact Hc.
      - unfold bytes_from. rewrite length_drop, HlK, length_take, HlK1.
        pose proof (chunk_bytes io cng p (K + 1) pK1 10 0 HpK1 HlK1
                      ltac:(lia) ltac:(consts; lia)) as Hc.
        change (Z.to_nat 0) with 0%nat in Hc. rewrite drop_0 in Hc.
        replace (PAGE_SIZE * (K + 1) + 0)
          with (K * PAGE_SIZE + (PAGE_SIZE - 10)
                + Z.of_nat (Z.to_nat PAGE_SIZE - Z.to_nat (PAGE_SIZE - 10)))
          in Hc by (consts; lia).
        replace (Z.of_nat (10 `min` Z.to_nat PAGE_SIZE)) with (Z.of_nat 10)
          by (consts; lia).
        exact Hc. }
    assert (Hel : length expected = 20%nat).
    { subst expected. rewrite length_app, length_drop, length_take, HlK, HlK1.
      consts. lia. }
    assert (Hrc : rr_rc r = SQLITE_OK).
    { destruct (Z.eq_dec (rr_rc r) SQLITE_OK) as [|Hne]; [done|].
      destruct (Hfail Hne) as (a & Ha & Hnone).
      destruct (bytes_from_readable io cng p _ expected a Hexp) as [b Hb];
        [rewrite Hel; lia | congruence]. }
    split; [done|].
    destruct (Hok Hrc) as [Hlen Hbytes].
    change (Z.to_nat 20) with 20%nat in *.
    apply (bytes_from_unique io cng p (K * PAGE_SIZE + (PAGE_SIZE - 10)));
      [congruence | done | done].
Qed.

End Splits.

Lemma mem_xRead_exact (f : list Z) : xRead_exact mem_io f.
Proof.
  intros iAmt iOfst data. cbn [xRead mem_io]. unfold mem_xRead.
  pose proof (length_sub_bytes_le f iOfst iAmt) as Hle.
  destruct (Z.ltb_spec (Z.of_nat (length (sub_bytes f iOfst iAmt))) iAmt);
    intros [= <-]. lia.
Qed.

Lemma xor_cng_exact : decrypt_exact xor_cng.
Proof. intros key input iv output iv_after [= <- _]. apply length_fmap. Qed.

Lemma split_reads_agree_witness :
  let p := keyed_file two_pages in
  let pK := default [] (plain_page mem_io xor_cng p 0) in
  let pK1 := default [] (plain_page mem_io xor_cng p 1) in
  let r := wechat_read mem_io xor_cng zero_fresh p no_buffers (zeros 20) 20
                       (0 * PAGE_SIZE + (PAGE_SIZE - 10)) in
  split_ok 0 [8192] ∧ split_ok 0 [100; 3996; 4096]
  ∧ read_split mem_io xor_cng zero_fresh p no_buffers 0 [8192]
    = read_split mem_io xor_cng zero_fresh p no_buffers 0 [100; 3996; 4096]
  ∧ rr_rc r = SQLITE_OK
  ∧ take 20 (rr_zBuf r) = drop (Z.to_nat (PAGE_SIZE - 10)) pK ++ take 10 pK1.
Proof.
  assert (Hs1 : split_ok 0 [8192])
    by (unfold split_ok; repeat split; repeat constructor; simpl; lia).
  assert (Hs2 : split_ok 0 [100; 3996; 4096])
    by (unfold split_ok; repeat split; repeat constructor; simpl; lia).
  destruct (split_reads_agree mem_io xor_cng zero_fresh (keyed_file two_pages)
              eq_refl (mem_xRead_exact two_pages) xor_cng_exact
              no_buffers no_buffers 0 [8192] [100; 3996; 4096]
              no_buffers_ok no_buffers_ok Hs1 Hs2 eq_refl) as [Hsplit Htwo].
  destruct (Htwo 0 (default [] (plain_page mem_io xor_cng (keyed_file two_pages) 0))
                 (default [] (plain_page mem_io xor_cng (keyed_file two_pages) 1))
                 no_buffers (zeros 20) ltac:(lia) ltac:(consts; lia) no_buffers_ok
                 ltac:(vm_compute; lia) ltac:(vm_compute; reflexivity)
                 ltac:(vm_compute; reflexivity)) as [Hrc Hbytes].
  exact (conj Hs1 (conj Hs2 (conj Hsplit (conj Hrc Hbytes)))).
Defined.

(** * Further properties *)

(** ** Registration with SQLite *)

Section RegistrationFacts.

Context {S V : Type}.
Variable wechat_vfs : V.

(** X1: a first call of [wechat_vfs_register] never calls through a null
    pointer.  It returns [SQLITE_ERROR] and leaves SQLite's list as it was
    when the library does not load, a symbol is missing or there is no
    default file system; otherwise it registers the shim as the default
    ([makeDflt = 1]), returns the status of that registration, and has
    remembered the default it found before. *)
Theorem first_registration (dll : sqlite3_dll S V) (s : S) :
  exists rc g s',
    wechat_vfs_register dll wechat_vfs initial_globals s = Returned (rc, g, s')
    ∧ ((LoadLibraryA dll && GetProcAddress_find dll && GetProcAddress_register dll
        && GetProcAddress_unregister dll)%bool = false ->
       rc = SQLITE_ERROR ∧ s' = s ∧ g_default_vfs g = None)
    ∧ (sqlite3_vfs_find dll s = None -> rc = SQLITE_ERROR ∧ s' = s)
    ∧ ((LoadLibraryA dll && GetProcAddress_find dll && GetProcAddress_register dll
        && GetProcAddress_unregister dll)%bool = true ->
       is_Some (sqlite3_vfs_find dll s) ->
       (rc, s') = sqlite3_vfs_register dll s wechat_vfs 1
       ∧ g_default_vfs g = sqlite3_vfs_find dll s
       ∧ p_sqlite3_vfs_unregister g = true).
Proof.
  unfold wechat_vfs_register, initial_globals. cbn [sqlite3_module negb].
  destruct (LoadLibraryA dll); cbn [negb andb].
  2:{ eexists _, _, _. split; [reflexivity|]. repeat split; try done. }
  cbn [p_sqlite3_vfs_find p_sqlite3_vfs_register p_sqlite3_vfs_unregister g_default_vfs].
  destruct (GetProcAddress_find dll), (GetProcAddress_register dll),
    (GetProcAddress_unregister dll); cbn [negb andb orb];
    try (eexists _, _, _; split; [reflexivity|]; repeat split; done).
  cbn [p_sqlite3_vfs_find p_sqlite3_vfs_register p_sqlite3_vfs_unregister g_default_vfs].
  destruct (sqlite3_vfs_find dll s) as [d|] eqn:Hd.
  - destruct (sqlite3_vfs_register dll s wechat_vfs 1) as [rc s'] eqn:Hr.
    exists rc, {| sqlite3_module := true; p_sqlite3_vfs_find := true;
                  p_sqlite3_vfs_register := true; p_sqlite3_vfs_unregister := true;
                  g_default_vfs := Some d |}, s'.
    split; [reflexivity|]. repeat split; try done.
  - eexists _, _, _. split; [reflexivity|]. repeat split; try done.
Qed.

(** X2: a symbol that [GetProcAddress] did not resolve is never looked up
    again.  When the library loads without [sqlite3_vfs_find], the first call
    returns [SQLITE_ERROR] with the module recorded as loaded, and any later
    call, whatever the library offers by then, calls through the null
    pointer. *)
Theorem missing_symbol_is_not_retried (dll dll' : sqlite3_dll S V) (s s2 : S) :
  LoadLibraryA dll = true ->
  GetProcAddress_find dll = false ->
  exists g,
    wechat_vfs_register dll wechat_vfs initial_globals s = Returned (SQLITE_ERROR, g, s)
    ∧ sqlite3_module g = true
    ∧ wechat_vfs_register dll' wechat_vfs g s2 = NullCall.
Proof.
  intros Hl Hf. unfold wechat_vfs_register, initial_globals.
  cbn [sqlite3_module negb]. rewrite Hl, Hf. cbn.
  eexists. split; [reflexivity|]. split; reflexivity.
Qed.

(** X3: [wechat_vfs_unregister] returns [SQLITE_ERROR] and leaves SQLite's
    list as it was as long as no registration has resolved the symbols (at
    start, or after the library failed to load); after a first registration
    that went through, it hands the shim to [sqlite3_vfs_unregister] and
    returns its status. *)
Theorem unregistration (dll : sqlite3_dll S V) (s : S) :
  wechat_vfs_unregister dll wechat_vfs initial_globals s
  = (SQLITE_ERROR, initial_globals, s)
  ∧ (LoadLibraryA dll = false ->
     forall rc g s',
       wechat_vfs_register dll wechat_vfs initial_globals s = Returned (rc, g, s') ->
       wechat_vfs_unregister dll wechat_vfs g s' = (SQLITE_ERROR, g, s'))
  ∧ (forall g s',
       wechat_vfs_register dll wechat_vfs initial_globals s
       = Returned (SQLITE_OK, g, s') ->
       wechat_vfs_unregister dll wechat_vfs g s'
       = ((sqlite3_vfs_unregister dll s' wechat_vfs).1, g,
          (sqlite3_vfs_unregister dll s' wechat_vfs).2)).
Proof.
  split; [reflexivity|]. split.
  - intros Hl rc g s'. unfold wechat_vfs_register, initial_globals.
    cbn [sqlite3_module negb]. rewrite Hl. cbn. by intros [= <- <- <-].
  - intros g s'. unfold wechat_vfs_register, initial_globals.
    cbn [sqlite3_module negb].
    destruct (LoadLibraryA dll); cbn [negb]; [|by intros [= ? ? ?]].
    cbn [p_sqlite3_vfs_find p_sqlite3_vfs_register p_sqlite3_vfs_unregister g_default_vfs].
    destruct (GetProcAddress_find dll), (GetProcAddress_register dll),
      (GetProcAddress_unregister dll); cbn [negb andb orb];
      try (by intros [= ? ? ?]).
    cbn [p_sqlite3_vfs_find p_sqlite3_vfs_register p_sqlite3_vfs_unregister g_default_vfs].
    destruct (sqlite3_vfs_find dll s) as [d|]; [|by intros [= ? ? ?]].
    destruct (sqlite3_vfs_register dll s wechat_vfs 1) as [rc s1].
    intros [= -> <- <-]. unfold wechat_vfs_unregister. cbn.
    by destruct (sqlite3_vfs_unregister dll s1 wechat_vfs).
Qed.

(** X4: registering twice makes the shim its own default.  With a library
    whose [sqlite3_vfs_find(nullptr)] returns the file system last registered
    as default, a second [wechat_vfs_register] after a first one that went
    through stores the shim itself in [g_default_vfs], the file system every
    operation of the shim delegates to. *)
Theorem second_registration_finds_the_shim (dll : sqlite3_dll S V) (s s1 : S)
    (g1 : globals V) :
  register_makes_default dll ->
  wechat_vfs_register dll wechat_vfs initial_globals s = Returned (SQLITE_OK, g1, s1) ->
  exists rc g2 s2,
    wechat_vfs_register dll wechat_vfs g1 s1 = Returned (rc, g2, s2)
    ∧ g_default_vfs g2 = Some wechat_vfs.
Proof.
  intros Hdef. unfold wechat_vfs_register at 1. unfold initial_globals.
  cbn [sqlite3_module negb].
  destruct (LoadLibraryA dll); cbn [negb]; [|by intros [= ? ? ?]].
  cbn [p_sqlite3_vfs_find p_sqlite3_vfs_register p_sqlite3_vfs_unregister g_default_vfs].
  destruct (GetProcAddress_find dll), (GetProcAddress_register dll),
    (GetProcAddress_unregister dll); cbn [negb andb orb];
    try (by intros [= ? ? ?]).
  cbn [p_sqlite3_vfs_find p_sqlite3_vfs_register p_sqlite3_vfs_unregister g_default_vfs].
  destruct (sqlite3_vfs_find dll s) as [d|]; [|by intros [= ? ? ?]].
  destruct (sqlite3_vfs_register dll s wechat_vfs 1) as [rc s'] eqn:Hr.
  intros [= -> <- <-]. pose proof (Hdef _ _ _ Hr) as Hfind.
  unfold wechat_vfs_register. cbn. rewrite Hfind. cbn.
  destruct (sqlite3_vfs_register dll s' wechat_vfs 1) as [rc2 s2].
  by eexists _, _, _.
Qed.

End RegistrationFacts.

Lemma list_dll_makes_default : register_makes_default list_dll.
Proof. intros s v s'. cbn. by intros [= <-]. Qed.

Lemma missing_symbol_is_not_retried_witness :
  exists g,
    wechat_vfs_register list_dll_no_find 1%nat initial_globals [0%nat]
    = Returned (SQLITE_ERROR, g, [0%nat])
    ∧ sqlite3_module g = true
    ∧ wechat_vfs_register list_dll 1%nat g [0%nat] = NullCall.
Proof.
  apply (missing_symbol_is_not_retried 1%nat list_dll_no_find list_dll
           [0%nat] [0%nat]); reflexivity.
Defined.

Lemma second_registration_finds_the_shim_witness :
  exists rc g2 s2,
    wechat_vfs_register list_dll 1%nat
      {| sqlite3_module := true; p_sqlite3_vfs_find := true;
         p_sqlite3_vfs_register := true; p_sqlite3_vfs_unregister := true;
         g_default_vfs := Some 0%nat |} [1%nat; 0%nat]
    = Returned (rc, g2, s2)
    ∧ g_default_vfs g2 = Some 1%nat.
Proof.
  apply (second_registration_finds_the_shim 1%nat list_dll [0%nat] [1%nat; 0%nat]
           _ list_dll_makes_default).
  vm_compute. reflexivity.
Defined.

(** ** Normal paths *)

Lemma normalize_char_table :
  forallb (fun a =>
    is_normal_char (normalize_char a)
    && Ascii.eqb (normalize_char (normalize_char a)) (normalize_char a)
    && implb (is_normal_char a) (Ascii.eqb (normalize_char a) a)
    && forallb (fun b =>
         implb (Ascii.eqb (normalize_char a) (normalize_char b)) (same_char a b))
         all_ascii)%bool all_ascii = true.
Proof. vm_compute. reflexivity. Qed.

Lemma normalize_char_facts (a : ascii) :
  is_normal_char (normalize_char a) = true
  ∧ normalize_char (normalize_char a) = normalize_char a
  ∧ (is_normal_char a = true -> normalize_char a = a)
  ∧ (forall b, normalize_char a = normalize_char b -> same_char a b = true).
Proof.
  pose proof normalize_char_table as Ht. rewrite forallb_forall in Ht.
  specialize (Ht a ltac:(apply list_elem_of_In, all_ascii_complete)).
  apply andb_prop in Ht as [Ht H4]. apply andb_prop in Ht as [Ht H3].
  apply andb_prop in Ht as [H1 H2].
  split; [done|]. split; [by apply Ascii.eqb_eq|]. split.
  - intros Hn. rewrite Hn in H3. by apply Ascii.eqb_eq.
  - intros b Hab. rewrite forallb_forall in H4.
    specialize (H4 b ltac:(apply list_elem_of_In, all_ascii_complete)).
    apply Ascii.eqb_eq in Hab. by rewrite Hab in H4.
Qed.

(** X5: [normalize_path] yields a normal form.  Its result has the length of
    the path and holds no backslash and no upper-case ASCII letter; a path
    that holds none is returned as it is; so normalizing twice is normalizing
    once. *)
Theorem normalize_path_normal_form (p : string) :
  String.length (normalize_path p) = String.length p
  ∧ all_chars is_normal_char (normalize_path p) = true
  ∧ (all_chars is_normal_char p = true -> normalize_path p = p)
  ∧ normalize_path (normalize_path p) = normalize_path p.
Proof.
  induction p as [|c rest (IH1 & IH2 & IH3 & IH4)]; [done|].
  destruct (normalize_char_facts c) as (H1 & H2 & H3 & _).
  cbn [normalize_path String.length all_chars].
  rewrite IH1, IH2, H1, H2, IH4. repeat split; try done.
  intros Hall. apply andb_prop in Hall as [Hc Hr].
  by rewrite (H3 Hc), (IH3 Hr).
Qed.

Lemma same_spelling_of_normalize (p1 p2 : string) :
  normalize_path p1 = normalize_path p2 -> same_spelling p1 p2 = true.
Proof.
  revert p2. induction p1 as [|a r1 IH]; intros [|b r2]; cbn; try done.
  intros [= Hc Hr]. destruct (normalize_char_facts a) as (_ & _ & _ & Hs).
  by rewrite (Hs b Hc), (IH r2 Hr).
Qed.

(** X6: two paths share a registry entry exactly when they are spellings of
    one another (same characters up to the case of ASCII letters and the
    direction of separators): registering keys under [p1] changes what a
    lookup under [p2] finds if they are, and only if they are. *)
Theorem registration_reaches_exactly_the_spellings (scan_2x : string -> Z)
    (g : gmap string EncryptionKeys) (p1 p2 enc_key_hex mac_key_hex : string) :
  (normalize_path p1 = normalize_path p2 <-> same_spelling p1 p2 = true)
  ∧ find_keys (wechat_vfs_register_keys scan_2x g p1 enc_key_hex mac_key_hex) p2
    = (if same_spelling p1 p2
       then Some {| encKey := hex_to_bytes scan_2x enc_key_hex;
                    macKey := hex_to_bytes scan_2x mac_key_hex |}
       else find_keys g p2)
  ∧ find_keys (wechat_vfs_unregister_keys g p1) p2
    = (if same_spelling p1 p2 then None else find_keys g p2).
Proof.
  assert (Hiff : normalize_path p1 = normalize_path p2 <-> same_spelling p1 p2 = true)
    by (split; [apply same_spelling_of_normalize | apply normalize_path_same]).
  split; [done|].
  unfold find_keys, wechat_vfs_register_keys, wechat_vfs_unregister_keys.
  destruct (same_spelling p1 p2) eqn:Hs.
  - rewrite <- (proj2 Hiff eq_refl). by rewrite lookup_insert_eq, lookup_delete_eq.
  - assert (normalize_path p1 ≠ normalize_path p2)
      by (intros Heq; apply Hiff in Heq; done).
    by rewrite lookup_insert_ne, lookup_delete_ne.
Qed.

(** ** Hexadecimal keys *)

(** X7: whatever the scanner stores, [hex_to_bytes] returns one byte for
    every two characters of the text, and one more for a last single
    character; each is below 256; the empty text gives no byte. *)
Theorem hex_to_bytes_length (scan_2x : string -> Z) (hex : string) :
  length (hex_to_bytes scan_2x hex) = ((String.length hex + 1) / 2)%nat
  ∧ Forall (fun b => 0 <= b < 256) (hex_to_bytes scan_2x hex)
  ∧ (hex = EmptyString -> hex_to_bytes scan_2x hex = []).
Proof.
  assert (H : forall n hex', (String.length hex' <= n)%nat ->
            length (hex_to_bytes scan_2x hex') = ((String.length hex' + 1) / 2)%nat
            ∧ Forall (fun b => 0 <= b < 256) (hex_to_bytes scan_2x hex')).
  { induction n as [|n IH]; intros [|a [|b rest]] Hlen; cbn in Hlen; try lia.
    - split; [reflexivity | constructor].
    - split; [reflexivity | constructor].
    - split; [reflexivity|]. repeat constructor; apply Z.mod_pos_bound; lia.
    - destruct (IH rest ltac:(lia)) as [IHl IHf].
      cbn [hex_to_bytes length String.length]. split.
      + rewrite IHl.
        replace (Datatypes.S (Datatypes.S (String.length rest)) + 1)%nat
          with (String.length rest + 1 + 1 * 2)%nat by lia.
        rewrite Nat.div_add by lia. lia.
      + constructor; [apply Z.mod_pos_bound; lia | done]. }
  destruct (H (String.length hex) hex ltac:(lia)) as [Hl Hf].
  split; [done|]. split; [done|]. by intros ->.
Qed.

Lemma hex_value_hex_char (d : Z) : 0 <= d < 16 -> hex_value (hex_char d) = Some d.
Proof.
  intros Hd.
  assert (Hcases : d = 0 ∨ d = 1 ∨ d = 2 ∨ d = 3 ∨ d = 4 ∨ d = 5 ∨ d = 6 ∨ d = 7
                   ∨ d = 8 ∨ d = 9 ∨ d = 10 ∨ d = 11 ∨ d = 12 ∨ d = 13 ∨ d = 14
                   ∨ d = 15) by lia.
  repeat (destruct Hcases as [->|Hcases]; [reflexivity|]). by subst.
Qed.

(** X8: decoding undoes encoding.  With a scanner that reads two hexadecimal
    digits as the number they write, [hex_to_bytes] of the text that writes
    each byte as two digits is the bytes. *)
Theorem hex_to_bytes_of_to_hex (scan_2x : string -> Z) (bytes : list Z) :
  scans_hex_pairs scan_2x ->
  Forall (fun b => 0 <= b < 256) bytes ->
  hex_to_bytes scan_2x (to_hex bytes) = bytes.
Proof.
  intros Hscan. induction 1 as [|b rest Hb _ IH]; [done|].
  cbn [to_hex hex_to_bytes]. rewrite IH. f_equal.
  rewrite (Hscan _ _ _ (b / 16) (b mod 16)).
  - pose proof (Z.div_mod b 16 ltac:(lia)).
    pose proof (Z.mod_pos_bound b 16 ltac:(lia)).
    rewrite Z.mod_small by lia. lia.
  - apply hex_value_hex_char.
    pose proof (Z.div_mod b 16 ltac:(lia)).
    pose proof (Z.mod_pos_bound b 16 ltac:(lia)). lia.
  - apply hex_value_hex_char. apply Z.mod_pos_bound. lia.
Qed.

Lemma hex_value_digit_table :
  forallb (fun a => match hex_value a with
                    | Some d => d =? hex_digit a
                    | None => true
                    end) all_ascii = true.
Proof. vm_compute. reflexivity. Qed.

Lemma scan_hex2_scans_pairs : scans_hex_pairs scan_hex2.
Proof.
  intros a b rest hi lo Ha Hb. cbn [scan_hex2].
  pose proof hex_value_digit_table as Ht. rewrite forallb_forall in Ht.
  pose proof (Ht a ltac:(apply list_elem_of_In, all_ascii_complete)) as Hta.
  pose proof (Ht b ltac:(apply list_elem_of_In, all_ascii_complete)) as Htb.
  rewrite Ha in Hta. rewrite Hb in Htb.
  apply Z.eqb_eq in Hta, Htb. by rewrite <- Hta, <- Htb.
Qed.

Lemma hex_to_bytes_of_to_hex_witness :
  hex_to_bytes scan_hex2 (to_hex [0; 10; 171; 255]) = [0; 10; 171; 255].
Proof.
  apply (hex_to_bytes_of_to_hex scan_hex2 [0; 10; 171; 255] scan_hex2_scans_pairs).
  repeat constructor; lia.
Defined.

(** ** The registry's count *)

(** X9: [wechat_vfs_get_callback_count] counts the normalized paths that
    have keys.  It is 0 for the empty registry; registering keys adds one
    when the path had none and nothing when it replaces a record; removing
    keys takes one off when the path had some and nothing otherwise (for a
    registry whose size is an [int]). *)
Theorem key_count (scan_2x : string -> Z) (g : gmap string EncryptionKeys)
    (db_path enc_key_hex mac_key_hex : string) :
  Z.of_nat (size g) + 1 < 2 ^ 31 ->
  let count := wechat_vfs_get_callback_count in
  count ∅ = 0
  ∧ count g = Z.of_nat (size g)
  ∧ count (wechat_vfs_register_keys scan_2x g db_path enc_key_hex mac_key_hex)
    = match find_keys g db_path with
      | Some _ => count g
      | None => count g + 1
      end
  ∧ count (wechat_vfs_unregister_keys g db_path)
    = match find_keys g db_path with
      | Some _ => count g - 1
      | None => count g
      end.
Proof.
  intros Hsize count. subst count.
  unfold wechat_vfs_get_callback_count, wechat_vfs_register_keys,
    wechat_vfs_unregister_keys, find_keys.
  rewrite map_size_empty, map_size_insert, map_size_delete.
  split; [reflexivity|].
  assert (Hpos : forall k : EncryptionKeys,
                   g !! normalize_path db_path = Some k -> (0 < size g)%nat).
  { intros m Hm. destruct (decide (size g = 0%nat)) as [Hz|]; [|lia].
    apply map_size_empty_inv in Hz. subst g. by rewrite lookup_empty in Hm. }
  destruct (g !! normalize_path db_path) as [k|] eqn:Hk; cbn [id].
  - specialize (Hpos k eq_refl). rewrite !to_int_small by lia. lia.
  - rewrite !to_int_small by lia. lia.
Qed.

Lemma key_count_witness :
  wechat_vfs_get_callback_count
    (wechat_vfs_register_keys scan_hex2 ∅ "C:\Data\db.sqlite" "0aff" "10")
  = 1.
Proof.
  destruct (key_count scan_hex2 ∅ "C:\Data\db.sqlite" "0aff" "10"
              ltac:(rewrite map_size_empty; lia)) as (H0 & _ & Hreg & _).
  rewrite Hreg, H0. reflexivity.
Defined.

(** ** Opening a file *)

(** X10: [wechat_open] returns the status of the platform open, and makes a
    handle exactly when that status is [SQLITE_OK].  The handle owns the
    platform file; it has keys exactly when the open has a name whose
    normalized form is registered, and then they are the registered ones;
    an open without a name never has keys, whatever is registered. *)
Theorem open_status_and_keys {F : Type}
    (default_xOpen : option string -> Z -> Z * F)
    (g : gmap string EncryptionKeys) (cb : bool) (zName : option string)
    (flags : Z) :
  let r := wechat_open default_xOpen g cb zName flags in
  r.1 = (default_xOpen zName flags).1
  ∧ (is_Some r.2 <-> r.1 = SQLITE_OK)
  ∧ (forall h, r.2 = Some h ->
       real_file h = (default_xOpen zName flags).2
       ∧ decrypt_cb h = cb
       ∧ keys h = (name ← zName; g !! normalize_path name)
       ∧ (is_Some (keys h)
          <-> exists name, zName = Some name ∧ normalize_path name ∈ dom g)).
Proof.
  unfold wechat_open. destruct (default_xOpen zName flags) as [rc real].
  destruct (Z.eqb_spec rc SQLITE_OK) as [->|Hrc]; cbn [negb fst snd].
  - destruct zName as [name|]; cbn [fst snd].
    + split; [done|]. split; [split; eauto|].
      intros h [= <-]. cbn. unfold find_keys.
      split; [done|]. split; [done|]. split; [done|]. split.
      * intros Hk. exists name. split; [done|]. by apply elem_of_dom.
      * intros (n & [= <-] & Hn). by apply elem_of_dom.
    + split; [done|]. split; [split; eauto|].
      intros h [= <-]. cbn.
      split; [done|]. split; [done|]. split; [done|]. split.
      * by intros [? ?].
      * by intros (n & ? & _).
  - split; [done|]. split; [|done].
    split; [by intros [? ?] | done].
Qed.

(** ** A page that cannot be decrypted *)

Section DecryptFailure.

Context {F : Type}.
Variable io : sqlite3_io_methods F.
Variable cng : CNG.
Variable fresh : bool -> nat -> Z.

(** X11: when the engine fails on a page the request intersects (its
    provider, chaining mode or key cannot be set up, or the decryption
    reports a failure), and the pages before it went through, the read
    returns [SQLITE_ERROR]; the caller's buffer is as those pages left it;
    the failed engine call is the last thing the read did.  Only a handle
    with keys can fail this way. *)
Theorem failed_decrypt_aborts (p : WeChatFile F) (t : tls) (zBuf : list Z)
    (iAmt iOfst : Z) (before after : list Z) (j : Z) (st : loop_state)
    (data : list Z) :
  decrypt_cb p = true ->
  page_range (first_page iOfst) (last_page iAmt iOfst) = before ++ j :: after ->
  read_pages io cng p iAmt (first_page iOfst) (first_skip iOfst) before
             (start_state fresh t zBuf) = Continue st ->
  xRead io (real_file p) PAGE_SIZE (to_int64 (j * PAGE_SIZE)) = (SQLITE_OK, data) ->
  let enc := store (ls_enc st) 0 (take (Z.to_nat PAGE_SIZE) data) in
  let d := decrypt_page cng (keys p) j enc (ls_dec st) in
  pr_ok d = false ->
  let r := wechat_read io cng fresh p t zBuf iAmt iOfst in
  rr_rc r = SQLITE_ERROR
  ∧ rr_zBuf r = ls_out st
  ∧ (exists ks, keys p = Some ks
       ∧ rr_log r
         = ls_log st
             ++ [EvRead j PAGE_SIZE (to_int64 (j * PAGE_SIZE)) SQLITE_OK;
                 EvDecrypt j enc
                   (sub_bytes enc (if j =? 0 then SALT_SIZE else 0)
                      (PAGE_SIZE - RESERVE_SIZE - (if j =? 0 then SALT_SIZE else 0)))
                   (take 32 (encKey ks))
                   (sub_bytes enc (PAGE_SIZE - RESERVE_SIZE) IV_SIZE) false]).
Proof.
  intros Hcb Hpages Hbefore Hx enc d Hok r. subst r.
  rewrite wechat_read_paged by done. cbv zeta.
  rewrite Hpages, read_pages_app, Hbefore. simpl read_pages.
  rewrite read_page_cases. cbv zeta. unfold call_xRead. rewrite Hx.
  cbn [fst snd]. change (SQLITE_OK =? SQLITE_OK) with true. cbn [negb].
  fold enc. fold d. rewrite Hok. cbn [negb outcome_state finish rr_rc rr_zBuf rr_log ls_out ls_log].
  split; [done|]. split; [done|].
  subst d. unfold decrypt_page in *. destruct (keys p) as [ks|]; [|done].
  exists ks. split; [done|].
  destruct (aes_decrypt_cbc _ _ _ _ _ _ _) as [[ok enc1] dec1].
  destruct ok; [done|]. cbn [negb pr_events]. by rewrite <- app_assoc.
Qed.

End DecryptFailure.

Lemma failed_decrypt_aborts_witness :
  let p := keyed_file two_pages in
  let r := wechat_read mem_io broken_cng zero_fresh p no_buffers (zeros 100) 100 0 in
  rr_rc r = SQLITE_ERROR ∧ rr_zBuf r = zeros 100.
Proof.
  destruct (failed_decrypt_aborts mem_io broken_cng zero_fresh (keyed_file two_pages)
              no_buffers (zeros 100) 100 0 [] [] 0 _ page0
              eq_refl ltac:(vm_compute; reflexivity) eq_refl
              ltac:(vm_compute; reflexivity) ltac:(vm_compute; reflexivity))
    as (Hrc & Hbuf & _).
  exact (conj Hrc Hbuf).
Defined.

(** ** A read against the decrypted file *)

Section Correctness.

Context {F : Type}.
Variable io : sqlite3_io_methods F.
Variable cng : CNG.
Variable fresh : bool -> nat -> Z.

(** Byte by byte: what a successful paged read leaves in the caller's
    buffer. *)
Lemma wechat_read_lookup (p : WeChatFile F) (t : tls) (zBuf : list Z)
    (iAmt iOfst : Z) :
  decrypt_cb p = true ->
  xRead_exact io (real_file p) ->
  decrypt_exact cng ->
  tls_ok t ->
  request_ok iAmt iOfst ->
  (Z.to_nat iAmt <= length zBuf)%nat ->
  let r := wechat_read io cng fresh p t zBuf iAmt iOfst in
  rr_rc r = SQLITE_OK ->
  forall i, 0 <= i < iAmt ->
    rr_zBuf r !! Z.to_nat i = byte_at io cng p (iOfst + i)
    ∧ is_Some (byte_at io cng p (iOfst + i)).
Proof.
  intros Hcb Hread Hcipher Ht Hreq Hbuf r Hrc i Hi.
  destruct (wechat_read_plain io cng fresh p zBuf iAmt iOfst Hreq Hbuf Hread Hcipher
              t Hcb Ht) as (_ & Hok & _). fold r in Hok.
  destruct (Hok Hrc) as [Hlen Hb]. unfold bytes_from in Hb.
  rewrite Hlen, Z2Nat.id in Hb by lia.
  assert (Hs : seqZ iOfst iAmt !! Z.to_nat i = Some (iOfst + i)).
  { rewrite lookup_seqZ. split; [f_equal; lia | lia]. }
  destruct (Forall2_lookup_l _ _ _ _ _ Hb Hs) as (b & Hbi & Hat).
  rewrite lookup_take_lt in Hbi by lia. rewrite Hbi, Hat. by eauto.
Qed.

(** X12: a read that takes the page loop returns [SQLITE_OK] exactly when
    every page the request intersects can be read whole and decrypted, and
    then byte [i] of the caller's buffer is the byte of the decrypted file at
    address [iOfst + i], for every [i] below [iAmt] (for collaborators that
    deliver whole pages and whole ciphertexts). *)
Theorem read_returns_the_decrypted_file (p : WeChatFile F) (t : tls)
    (zBuf : list Z) (iAmt iOfst : Z) :
  decrypt_cb p = true ->
  xRead_exact io (real_file p) ->
  decrypt_exact cng ->
  tls_ok t ->
  request_ok iAmt iOfst ->
  (Z.to_nat iAmt <= length zBuf)%nat ->
  let r := wechat_read io cng fresh p t zBuf iAmt iOfst in
  (rr_rc r = SQLITE_OK
   <-> forall j, iOfst / PAGE_SIZE <= j <= (iOfst + iAmt - 1) / PAGE_SIZE ->
                 is_Some (plain_page io cng p j))
  ∧ (rr_rc r = SQLITE_OK ->
     forall i, 0 <= i < iAmt ->
       is_Some (byte_at io cng p (iOfst + i))
       ∧ rr_zBuf r !! Z.to_nat i = byte_at io cng p (iOfst + i)).
Proof.
  intros Hcb Hread Hcipher Ht Hreq Hbuf r.
  destruct (wechat_read_plain io cng fresh p zBuf iAmt iOfst Hreq Hbuf Hread Hcipher
              t Hcb Ht) as (_ & Hok & Hfail). fold r in Hok, Hfail.
  pose proof (request_grid _ _ Hreq) as (Hk & Hofs & He & Hse & He31).
  destruct (request_pages _ _ Hreq) as (Hfp & Hlp & Hfs).
  pose proof Hreq as (H0 & Ha & Hmax). cbv zeta in *.
  rewrite <- Hfp, <- Hlp.
  pose proof (wechat_read_lookup p t zBuf iAmt iOfst Hcb Hread Hcipher Ht Hreq Hbuf)
    as Hbytes. cbv zeta in Hbytes. fold r in Hbytes.
  split; [split|].
  - intros Hrc j Hj.
    set (a := Z.max iOfst (PAGE_SIZE * j)).
    assert (Ha' : 0 <= a - iOfst < iAmt) by (subst a; consts; lia).
    destruct (Hbytes Hrc (a - iOfst) Ha') as [_ [b Hb]].
    replace (iOfst + (a - iOfst)) with a in Hb by lia.
    unfold byte_at in Hb.
    assert (Hdiv : a / PAGE_SIZE = j).
    { symmetry. apply (Z.div_unique_pos a PAGE_SIZE j (a - PAGE_SIZE * j));
        subst a; consts; lia. }
    rewrite Hdiv in Hb. destruct (plain_page io cng p j); [by eauto | done].
  - intros Hall. destruct (Z.eq_dec (rr_rc r) SQLITE_OK) as [|Hne]; [done|].
    destruct (Hfail Hne) as (a & Ha' & Hnone). exfalso.
    assert (Hpage : first_page iOfst <= a / PAGE_SIZE <= last_page iAmt iOfst).
    { pose proof (Z.div_mod a PAGE_SIZE ltac:(consts; lia)).
      pose proof (Z.mod_pos_bound a PAGE_SIZE ltac:(consts; lia)).
      consts. lia. }
    destruct (Hall _ Hpage) as [pg Hpg].
    unfold byte_at in Hnone. rewrite Hpg in Hnone. cbn in Hnone.
    pose proof (plain_page_length io cng p Hread _ _ Hpg) as Hl.
    apply lookup_ge_None in Hnone.
    pose proof (Z.mod_pos_bound a PAGE_SIZE ltac:(consts; lia)). lia.
  - intros Hrc i Hi. destruct (Hbytes Hrc i Hi). done.
Qed.

End Correctness.

Lemma read_returns_the_decrypted_file_witness :
  let p := keyed_file two_pages in
  let r := wechat_read mem_io xor_cng zero_fresh p no_buffers (zeros 30) 20 4086 in
  rr_rc r = SQLITE_OK
  ∧ rr_zBuf r !! Z.to_nat 10 = byte_at mem_io xor_cng p (4086 + 10).
Proof.
  destruct (read_returns_the_decrypted_file mem_io xor_cng zero_fresh
              (keyed_file two_pages) no_buffers (zeros 30) 20 4086
              eq_refl (mem_xRead_exact two_pages) xor_cng_exact no_buffers_ok
              ltac:(unfold request_ok; lia) ltac:(vm_compute; lia))
    as [_ Hbytes].
  assert (Hrc : rr_rc (wechat_read mem_io xor_cng zero_fresh (keyed_file two_pages)
                                   no_buffers (zeros 30) 20 4086) = SQLITE_OK)
    by (vm_compute; reflexivity).
  exact (conj Hrc (proj2 (Hbytes Hrc 10 ltac:(lia)))).
Defined.

(** ** The pages a read touches *)

Lemma pages_read_app (l1 l2 : list event) :
  pages_read (l1 ++ l2) = pages_read l1 ++ pages_read l2.
Proof. apply omap_app. Qed.

Section PagesTouched.

Context {F : Type}.
Variable io : sqlite3_io_methods F.
Variable cng : CNG.
Variable fresh : bool -> nat -> Z.
Variable p : WeChatFile F.
Variables iAmt start_page start_offset : Z.

Lemma decrypt_page_reads_nothing (k : option EncryptionKeys) (page_num : Z)
    (enc dec : list Z) :
  pages_read (pr_events (decrypt_page cng k page_num enc dec)) = [].
Proof.
  unfold decrypt_page. destruct k as [ks|]; [|done].
  destruct (aes_decrypt_cbc _ _ _ _ _ _ _) as [[ok enc1] dec1].
  by destruct ok.
Qed.

Lemma read_page_pages (page_num : Z) (st : loop_state) :
  let o := read_page io cng p iAmt start_page start_offset page_num st in
  pages_read (ls_log (outcome_state o)) = pages_read (ls_log st) ++ [page_num]
  ∧ match o with Return rc _ => rc ≠ SQLITE_OK | Continue _ => True end.
Proof.
  cbv zeta. rewrite read_page_cases. cbv zeta.
  set (x := call_xRead io (real_file p) (ls_enc st) PAGE_SIZE
              (to_int64 (page_num * PAGE_SIZE))).
  set (d := decrypt_page cng (keys p) page_num x.2 (ls_dec st)).
  pose proof (decrypt_page_reads_nothing (keys p) page_num x.2 (ls_dec st)) as Hd.
  fold d in Hd.
  destruct (Z.eqb_spec x.1 SQLITE_OK) as [Hx|Hx]; cbn [negb].
  - destruct (pr_ok d); cbn [negb outcome_state ls_log];
      rewrite !pages_read_app, Hd, ?app_nil_r; done.
  - cbn [outcome_state ls_log]. by rewrite pages_read_app.
Qed.

Lemma read_pages_pages (pages : list Z) (st : loop_state) :
  let o := read_pages io cng p iAmt start_page start_offset pages st in
  exists k,
    (k <= length pages)%nat
    ∧ pages_read (ls_log (outcome_state o)) = pages_read (ls_log st) ++ take k pages
    ∧ match o with
      | Continue _ => k = length pages
      | Return rc _ => rc ≠ SQLITE_OK ∧ (0 < k)%nat
      end.
Proof.
  cbv zeta. revert st. induction pages as [|page_num rest IH]; intros st.
  - exists 0%nat. cbn. by rewrite app_nil_r.
  - cbn [read_pages].
    destruct (read_page_pages page_num st) as [Hp Hrc]. cbv zeta in *.
    destruct (read_page io cng p iAmt start_page start_offset page_num st)
      as [st1|rc st1]; cbn [outcome_state] in *.
    + destruct (IH st1) as (k & Hk & Hlog & Hlast).
      exists (Datatypes.S k). split; [cbn; lia|]. split.
      * rewrite Hlog, Hp, <- app_assoc. done.
      * destruct (read_pages _ _ _ _ _ _ _ _); [cbn; lia|].
        split; [apply Hlast | lia].
    + exists 1%nat. split; [cbn; lia|]. split; [|split; [done | lia]].
      rewrite Hp. cbn. by rewrite take_0.
Qed.





End PagesTouched.



Section PagesOfARequest.

Context {F : Type}.
Variable io : sqlite3_io_methods F.
Variable cng : CNG.
Variable fresh : bool -> nat -> Z.


End PagesOfARequest.


(** ** What a read depends on *)

Section Dependence.

Context {F : Type}.
Variable io : sqlite3_io_methods F.
Variables cng cng' : CNG.
Variable fresh : bool -> nat -> Z.
Variables p p' : WeChatFile F.
Hypothesis Hfile : real_file p = real_file p'.
Hypothesis Hcb : decrypt_cb p = decrypt_cb p'.
Hypothesis Hdecrypt :
  forall page_num enc dec,
    decrypt_page cng (keys p) page_num enc dec
    = decrypt_page cng' (keys p') page_num enc dec.

(** Two handles on one platform file whose pages decrypt alike read
    alike. *)
Lemma read_pages_ext (iAmt start_page start_offset : Z) (pages : list Z)
    (st : loop_state) :
  read_pages io cng p iAmt start_page start_offset pages st
  = read_pages io cng' p' iAmt start_page start_offset pages st.
Proof.
  revert st. induction pages as [|page_num rest IH]; intros st; [done|].
  cbn [read_pages].
  assert (Hpage : read_page io cng p iAmt start_page start_offset page_num st
                  = read_page io cng' p' iAmt start_page start_offset page_num st)
    by (unfold read_page; rewrite Hfile; destruct (call_xRead _ _ _ _ _);
        by rewrite Hdecrypt).
  rewrite Hpage. clear Hpage.
  destruct (read_page io cng' p' iAmt start_page start_offset page_num st);
    [apply IH | done].
Qed.

Lemma wechat_read_ext (t : tls) (zBuf : list Z) (iAmt iOfst : Z) :
  wechat_read io cng fresh p t zBuf iAmt iOfst
  = wechat_read io cng' fresh p' t zBuf iAmt iOfst.
Proof. unfold wechat_read. by rewrite <- Hcb, <- Hfile, read_pages_ext. Qed.

End Dependence.

Section KeyMaterial.

Context {F : Type}.
Variable io : sqlite3_io_methods F.
Variable cng : CNG.
Variable fresh : bool -> nat -> Z.

(** X14: a read depends on the keys of the handle through the first 32
    bytes of the encryption key only.  The authentication key is never used
    (no page is authenticated), nor is anything past byte 32 of the
    encryption key: a handle with other keys that agree on those 32 bytes
    reads the same, call for call. *)
Theorem only_the_encryption_key_counts (p : WeChatFile F) (ks ks' : EncryptionKeys)
    (t : tls) (zBuf : list Z) (iAmt iOfst : Z) :
  keys p = Some ks ->
  take 32 (encKey ks) = take 32 (encKey ks') ->
  wechat_read io cng fresh (with_keys p (Some ks')) t zBuf iAmt iOfst
  = wechat_read io cng fresh p t zBuf iAmt iOfst.
Proof.
  intros Hk Henc. symmetry. apply wechat_read_ext; [done | done |].
  intros page_num enc dec. rewrite Hk. cbn [with_keys keys].
  unfold decrypt_page, aes_decrypt_cbc. by rewrite Henc.
Qed.

(** Every engine call of a read is given the first 32 bytes of the
    encryption key of the handle. *)
Lemma read_uses_the_handle_key (p : WeChatFile F) (ks : EncryptionKeys) (t : tls)
    (zBuf : list Z) (iAmt iOfst : Z) :
  keys p = Some ks ->
  Forall (fun ev => forall k, event_key ev = Some k -> k = take 32 (encKey ks))
         (rr_log (wechat_read io cng fresh p t zBuf iAmt iOfst)).
Proof.
  intros Hk. destruct (decrypt_cb p) eqn:Hcb.
  - rewrite wechat_read_paged by done. cbn [finish rr_log].
    apply (read_pages_invariant io cng p iAmt _ _
             (fun st => Forall (fun ev => forall k, event_key ev = Some k ->
                                                    k = take 32 (encKey ks))
                               (ls_log st))); [|constructor].
    intros page_num st Hst. rewrite read_page_cases. cbv zeta.
    assert (Hd : forall enc dec,
              Forall (fun ev => forall k, event_key ev = Some k ->
                                          k = take 32 (encKey ks))
                     (pr_events (decrypt_page cng (keys p) page_num enc dec))).
    { intros enc dec. rewrite Hk. unfold decrypt_page.
      destruct (aes_decrypt_cbc _ _ _ _ _ _ _) as [[ok enc1] dec1].
      destruct ok; cbn; repeat constructor; by intros k [= <-]. }
    destruct (negb _); [|destruct (negb _)]; cbn [outcome_state ls_log];
      rewrite ?Forall_app; repeat split; try done; try apply Hd;
      repeat constructor; done.
  - unfold wechat_read. rewrite Hcb. cbn. destruct (call_xRead _ _ _ _ _).
    cbn. repeat constructor. done.
Qed.

(** The node of a path stays in the registry, whatever else is registered
    or removed, as long as the path itself is not unregistered. *)
Lemma registry_run_keeps (scan_2x : string -> Z) (node : string)
    (calls : list registry_call) (g : gmap string EncryptionKeys) :
  is_Some (g !! node) ->
  Forall (fun c => erases node c = false) calls ->
  is_Some (registry_run scan_2x g calls !! node).
Proof.
  intros Hg Hcalls. revert g Hg.
  induction Hcalls as [|c calls Hc _ IH]; intros g Hg; [done|].
  cbn [registry_run foldl]. apply IH.
  destruct c as [db_path e m|db_path]; cbn [registry_step].
  - unfold wechat_vfs_register_keys.
    destruct (decide (normalize_path db_path = node)) as [<-|Hne].
    + rewrite lookup_insert_eq. by eexists.
    + by rewrite lookup_insert_ne.
  - unfold wechat_vfs_unregister_keys. cbn [erases] in Hc.
    apply bool_decide_eq_false in Hc. by rewrite lookup_delete_ne.
Qed.

(** X15: a read decrypts with the keys the registry holds for the path of
    the handle when the read is made: the handle keeps a pointer to the
    record, not a copy.  After keys are registered under a path, a file is
    opened under any spelling of it, and the registry is called any number of
    times without unregistering that path (which would leave the pointer
    dangling), every engine call of a read on the handle is given the first
    32 bytes of the encryption key a lookup of the path finds by then: the
    key registered before the open when no call came after, the key of the
    last call when that call registers the path again (keys of 32 bytes or
    more, as the engine is told to read). *)
Theorem registered_key_is_the_key_used (scan_2x : string -> Z)
    (default_xOpen : option string -> Z -> Z * F)
    (g : gmap string EncryptionKeys) (cb : bool)
    (p1 p2 enc_key_hex mac_key_hex : string) (flags : Z) (real : F)
    (calls : list registry_call) :
  same_spelling p1 p2 = true ->
  default_xOpen (Some p2) flags = (SQLITE_OK, real) ->
  Forall (fun c => erases (normalize_path p2) c = false) calls ->
  let g1 := wechat_vfs_register_keys scan_2x g p1 enc_key_hex mac_key_hex in
  let g2 := registry_run scan_2x g1 calls in
  (forall ks, find_keys g2 p2 = Some ks -> (32 <= length (encKey ks))%nat) ->
  exists h h' ks,
    wechat_open default_xOpen g1 cb (Some p2) flags = (SQLITE_OK, Some h)
    ∧ keys h = Some {| encKey := hex_to_bytes scan_2x enc_key_hex;
                       macKey := hex_to_bytes scan_2x mac_key_hex |}
    ∧ handle_after scan_2x g1 (Some p2) h calls = Some h'
    ∧ find_keys g2 p2 = Some ks
    ∧ keys h' = Some ks
    ∧ (calls = [] -> keys h' = keys h)
    ∧ (forall calls0 p3 e m,
         calls = calls0 ++ [RegisterKeys p3 e m] ->
         same_spelling p3 p2 = true ->
         ks = {| encKey := hex_to_bytes scan_2x e;
                 macKey := hex_to_bytes scan_2x m |})
    ∧ forall t zBuf iAmt iOfst page_num scratch encrypted key iv ok,
        EvDecrypt page_num scratch encrypted key iv ok
          ∈ rr_log (wechat_read io cng fresh h' t zBuf iAmt iOfst) ->
        key = take 32 (encKey ks) ∧ length key = 32%nat.
Proof.
  intros Hs Ho Hcalls g1 g2 Hlen.
  pose proof (normalize_path_same _ _ Hs) as Hn.
  assert (Hg1 : g1 !! normalize_path p2
                = Some {| encKey := hex_to_bytes scan_2x enc_key_hex;
                          macKey := hex_to_bytes scan_2x mac_key_hex |})
    by (subst g1; unfold wechat_vfs_register_keys; cbv zeta;
        by rewrite <- Hn, lookup_insert_eq).
  destruct (registry_run_keeps scan_2x (normalize_path p2) calls g1
              ltac:(by rewrite Hg1) Hcalls) as [ks Hks].
  fold g2 in Hks.
  assert (Hno : existsb (erases (normalize_path p2)) calls = false).
  { clear -Hcalls. induction Hcalls as [|c calls Hc _ IH]; [done|].
    cbn [existsb]. by rewrite Hc, IH. }
  exists {| real_file := real; path := p2;
            keys := Some {| encKey := hex_to_bytes scan_2x enc_key_hex;
                            macKey := hex_to_bytes scan_2x mac_key_hex |};
            decrypt_cb := cb |},
         {| real_file := real; path := p2; keys := Some ks; decrypt_cb := cb |}, ks.
  split; [|split; [done|split; [|split; [done|split; [done|split; [|split]]]]]].
  - unfold wechat_open, find_keys. cbv zeta. by rewrite Ho, Hg1.
  - unfold handle_after, keys_node. cbn [mbind option_bind].
    rewrite Hg1, Hno. fold g2. rewrite Hks. reflexivity.
  - intros ->. cbn [keys]. f_equal.
    subst g2. cbn [registry_run foldl] in Hks. congruence.
  - intros calls0 p3 e m -> Hs3.
    pose proof (normalize_path_same _ _ Hs3) as Hn3.
    subst g2. unfold registry_run in Hks. rewrite foldl_app in Hks.
    cbn [foldl registry_step] in Hks. unfold wechat_vfs_register_keys in Hks.
    cbv zeta in Hks. rewrite Hn3, lookup_insert_eq in Hks. congruence.
  - intros t zBuf iAmt iOfst page_num scratch encrypted key iv ok Hin.
    match type of Hin with
    | _ ∈ rr_log (wechat_read _ _ _ ?h _ _ _ _) =>
        pose proof (read_uses_the_handle_key h ks t zBuf iAmt iOfst eq_refl) as Hall
    end.
    rewrite Forall_forall in Hall.
    assert (Hkey : key = take 32 (encKey ks)) by (by apply (Hall _ Hin)).
    split; [done|]. rewrite Hkey, length_take.
    specialize (Hlen ks Hks). lia.
Qed.

End KeyMaterial.

Lemma only_the_encryption_key_counts_witness :
  wechat_read mem_io xor_cng zero_fresh
    (with_keys (keyed_file two_pages)
               (Some {| encKey := replicate 32 7 ++ [1; 2; 3]; macKey := [] |}))
    no_buffers (zeros 20) 20 0
  = wechat_read mem_io xor_cng zero_fresh (keyed_file two_pages)
      no_buffers (zeros 20) 20 0.
Proof.
  apply (only_the_encryption_key_counts mem_io xor_cng zero_fresh
           (keyed_file two_pages) sample_keys
           {| encKey := replicate 32 7 ++ [1; 2; 3]; macKey := [] |});
    reflexivity.
Defined.

Lemma registered_key_is_the_key_used_witness :
  let g1 := wechat_vfs_register_keys scan_hex2 ∅ "C:\Data\db.sqlite" key_hex_a "10" in
  let g2 := registry_run scan_hex2 g1 later_calls in
  exists h h' ks,
    wechat_open (mem_xOpen two_pages) g1 true (Some "c:/data/DB.sqlite"%string) 1
    = (SQLITE_OK, Some h)
    ∧ keys h = Some {| encKey := hex_to_bytes scan_hex2 key_hex_a;
                       macKey := hex_to_bytes scan_hex2 "10" |}
    ∧ handle_after scan_hex2 g1 (Some "c:/data/DB.sqlite"%string) h later_calls
      = Some h'
    ∧ find_keys g2 "c:/data/DB.sqlite" = Some ks
    ∧ keys h' = Some ks
    ∧ (later_calls = [] -> keys h' = keys h)
    ∧ (forall calls0 p3 e m,
         later_calls = calls0 ++ [RegisterKeys p3 e m] ->
         same_spelling p3 "c:/data/DB.sqlite" = true ->
         ks = {| encKey := hex_to_bytes scan_hex2 e;
                 macKey := hex_to_bytes scan_hex2 m |})
    ∧ forall t zBuf iAmt iOfst page_num scratch encrypted key iv ok,
        EvDecrypt page_num scratch encrypted key iv ok
          ∈ rr_log (wechat_read mem_io xor_cng zero_fresh h' t zBuf iAmt iOfst) ->
        key = take 32 (encKey ks) ∧ length key = 32%nat.
Proof.
  apply (registered_key_is_the_key_used mem_io xor_cng zero_fresh scan_hex2
           (mem_xOpen two_pages) ∅ true "C:\Data\db.sqlite" "c:/data/DB.sqlite"
           key_hex_a "10" 1 two_pages later_calls);
    [reflexivity | reflexivity | by repeat constructor |].
  intros ks Hks. vm_compute in Hks. injection Hks as <-. vm_compute. lia.
Defined.

(** ** A handle without keys on the page loop *)

Section UnkeyedPaged.

Context {F : Type}.
Variable io : sqlite3_io_methods F.
Variable cng : CNG.
Variable fresh : bool -> nat -> Z.

(** X16: the page loop fails open.  On a handle without keys whose callback
    member is set, a read that succeeds hands the caller the bytes of the
    platform file as they are, page by page, whatever the engine is: byte
    [i] of the buffer is the byte at [(iOfst + i) mod PAGE_SIZE] of the page
    the platform file delivers for that address. *)
Theorem unkeyed_paged_read_is_raw (p : WeChatFile F) (t : tls) (zBuf : list Z)
    (iAmt iOfst : Z) :
  keys p = None ->
  decrypt_cb p = true ->
  xRead_exact io (real_file p) ->
  tls_ok t ->
  request_ok iAmt iOfst ->
  (Z.to_nat iAmt <= length zBuf)%nat ->
  let r := wechat_read io cng fresh p t zBuf iAmt iOfst in
  rr_rc r = SQLITE_OK ->
  forall i, 0 <= i < iAmt ->
    exists data,
      xRead io (real_file p) PAGE_SIZE ((iOfst + i) / PAGE_SIZE * PAGE_SIZE)
      = (SQLITE_OK, data)
      ∧ is_Some (data !! Z.to_nat ((iOfst + i) mod PAGE_SIZE))
      ∧ rr_zBuf r !! Z.to_nat i = data !! Z.to_nat ((iOfst + i) mod PAGE_SIZE).
Proof.
  intros Hk Hcb Hread Ht Hreq Hbuf r Hrc i Hi. subst r.
  assert (Hext : forall page_num enc dec,
            decrypt_page cng (keys p) page_num enc dec
            = decrypt_page xor_cng (keys p) page_num enc dec)
    by (intros; by rewrite Hk).
  rewrite (wechat_read_ext io cng xor_cng fresh p p eq_refl eq_refl Hext) in *.
  destruct (wechat_read_lookup io xor_cng fresh p t zBuf iAmt iOfst Hcb Hread
              xor_cng_exact Ht Hreq Hbuf Hrc i Hi) as [Hlook [b Hb]].
  rewrite Hlook. unfold byte_at, plain_page in *.
  destruct (xRead io (real_file p) PAGE_SIZE ((iOfst + i) / PAGE_SIZE * PAGE_SIZE))
    as [rc data] eqn:Hx.
  destruct (Z.eqb_spec rc SQLITE_OK) as [->|]; [|done].
  pose proof (Hread _ _ _ Hx) as Hlen.
  rewrite Hk in *. unfold decrypt_page, memcpy in *. cbn [pr_ok pr_dec] in *.
  rewrite sub_bytes_whole in * by done.
  rewrite store_whole in * by (unfold zeros; rewrite length_replicate; done).
  cbn in *. exists data. rewrite Hb. by eauto.
Qed.

End UnkeyedPaged.

Lemma unkeyed_paged_read_is_raw_witness :
  let p := unkeyed_file two_pages true in
  let r := wechat_read mem_io broken_cng zero_fresh p no_buffers (zeros 30) 20 4086 in
  rr_rc r = SQLITE_OK
  ∧ exists data,
      xRead mem_io two_pages PAGE_SIZE ((4086 + 10) / PAGE_SIZE * PAGE_SIZE)
      = (SQLITE_OK, data)
      ∧ is_Some (data !! Z.to_nat ((4086 + 10) mod PAGE_SIZE))
      ∧ rr_zBuf r !! Z.to_nat 10 = data !! Z.to_nat ((4086 + 10) mod PAGE_SIZE).
Proof.
  assert (Hrc : rr_rc (wechat_read mem_io broken_cng zero_fresh
                         (unkeyed_file two_pages true) no_buffers (zeros 30) 20 4086)
                = SQLITE_OK) by (vm_compute; reflexivity).
  split; [exact Hrc|].
  apply (unkeyed_paged_read_is_raw mem_io broken_cng zero_fresh
           (unkeyed_file two_pages true) no_buffers (zeros 30) 20 4086
           eq_refl eq_refl (mem_xRead_exact two_pages) no_buffers_ok
           ltac:(unfold request_ok; lia) ltac:(vm_compute; lia) Hrc 10 ltac:(lia)).
Defined.

(** ** The thread's page buffers *)

Section PageBuffers.

Context {F : Type}.
Variable io : sqlite3_io_methods F.
Variable cng : CNG.
Variable fresh : bool -> nat -> Z.

(** X17: the thread's page buffers are allocated at most once and stay
    [PAGE_SIZE] bytes long.  A read that is forwarded leaves them as they
    are (it allocates nothing); a read that takes the page loop leaves both
    allocated and, when they were allocated before, has not replaced what it
    did not overwrite: it starts from their old content. *)
Theorem page_buffers_are_kept (p : WeChatFile F) (t : tls) (zBuf : list Z)
    (iAmt iOfst : Z) :
  tls_ok t ->
  let r := wechat_read io cng fresh p t zBuf iAmt iOfst in
  tls_ok (rr_tls r)
  ∧ (decrypt_cb p = false -> rr_tls r = t)
  ∧ (decrypt_cb p = true ->
     is_Some (g_encrypted_buffer (rr_tls r))
     ∧ is_Some (g_decrypted_buffer (rr_tls r)))
  ∧ ensure_buffers_allocated fresh (ensure_buffers_allocated fresh t)
    = ensure_buffers_allocated fresh t
  ∧ (forall enc dec,
       t = {| g_encrypted_buffer := Some enc; g_decrypted_buffer := Some dec |} ->
       ensure_buffers_allocated fresh t = t
       ∧ ls_enc (start_state fresh t zBuf) = enc
       ∧ ls_dec (start_state fresh t zBuf) = dec).
Proof.
  intros Ht r.
  pose proof (wechat_read_events_ok io cng fresh p t zBuf iAmt iOfst Ht) as [_ Htls].
  split; [exact Htls|]. subst r. split; [|split; [|split]].
  - intros Hcb. unfold wechat_read. rewrite Hcb. cbn.
    by destruct (call_xRead _ _ _ _ _).
  - intros Hcb. rewrite wechat_read_paged by done. cbn. by eauto.
  - unfold ensure_buffers_allocated.
    destruct (g_encrypted_buffer t), (g_decrypted_buffer t); done.
  - by intros enc dec ->.
Qed.

End PageBuffers.

Lemma page_buffers_are_kept_witness :
  let r := wechat_read mem_io xor_cng zero_fresh (keyed_file two_pages)
                       no_buffers (zeros 20) 20 0 in
  tls_ok (rr_tls r)
  ∧ is_Some (g_encrypted_buffer (rr_tls r))
  ∧ is_Some (g_decrypted_buffer (rr_tls r)).
Proof.
  destruct (page_buffers_are_kept mem_io xor_cng zero_fresh (keyed_file two_pages)
              no_buffers (zeros 20) 20 0 no_buffers_ok) as (Hok & _ & Hall & _).
  exact (conj Hok (Hall eq_refl)).
Defined.

(** ** Requests at the edges *)

Lemma store_nothing (m : list Z) : store m 0 [] = m.
Proof. unfold store. cbn. by rewrite drop_0. Qed.

Section ZeroLength.

Context {F : Type}.
Variable io : sqlite3_io_methods F.
Variable cng : CNG.
Variable fresh : bool -> nat -> Z.

(** X18: a read of no bytes never changes the caller's buffer.  At a
    positive offset that is a multiple of [PAGE_SIZE] the page loop is not
    entered: the read returns [SQLITE_OK] and does nothing.  At offset 0 and
    at any offset inside a page, the loop still reads (and decrypts) that
    one page before copying nothing. *)
Theorem zero_length_read (p : WeChatFile F) (t : tls) (zBuf : list Z) (iOfst : Z) :
  decrypt_cb p = true ->
  0 <= iOfst < 2 ^ 43 ->
  let r := wechat_read io cng fresh p t zBuf 0 iOfst in
  rr_zBuf r = zBuf
  ∧ (0 < iOfst -> iOfst mod PAGE_SIZE = 0 ->
     rr_rc r = SQLITE_OK ∧ rr_log r = [])
  ∧ (iOfst = 0 ∨ iOfst mod PAGE_SIZE ≠ 0 ->
     pages_read (rr_log r) = [iOfst / PAGE_SIZE]).
Proof.
  intros Hcb Hofs r. subst r. rewrite wechat_read_paged by done. cbv zeta.
  pose proof (Z.div_mod iOfst PAGE_SIZE ltac:(consts; lia)) as Hdm.
  pose proof (Z.mod_pos_bound iOfst PAGE_SIZE ltac:(consts; lia)) as Hmb.
  assert (Hfp : first_page iOfst = iOfst / PAGE_SIZE).
  { unfold first_page. rewrite Z.quot_div_nonneg by (consts; lia).
    apply to_int_small. consts. lia. }
  assert (Hfs : first_skip iOfst = iOfst mod PAGE_SIZE).
  { unfold first_skip. rewrite Z.rem_mod_nonneg by (consts; lia).
    apply to_int_small. consts. lia. }
  assert (Hlp : last_page 0 iOfst
                = if (0 <? iOfst) && (iOfst mod PAGE_SIZE =? 0)
                  then iOfst / PAGE_SIZE - 1 else iOfst / PAGE_SIZE).
  { unfold last_page. destruct (Z.eq_dec iOfst 0) as [->|Hnz]; [reflexivity|].
    rewrite (to_int64_small (iOfst + 0 - 1)) by lia.
    rewrite Z.quot_div_nonneg by (consts; lia).
    pose proof (Z.div_mod (iOfst + 0 - 1) PAGE_SIZE ltac:(consts; lia)).
    pose proof (Z.mod_pos_bound (iOfst + 0 - 1) PAGE_SIZE ltac:(consts; lia)).
    destruct (Z.ltb_spec 0 iOfst); [|lia].
    destruct (Z.eqb_spec (iOfst mod PAGE_SIZE) 0); cbn [andb];
      rewrite to_int_small; consts; lia. }
  rewrite Hfp, Hfs, Hlp. unfold page_range.
  destruct (Z.ltb_spec 0 iOfst) as [Hpos|Hzero];
    [destruct (Z.eqb_spec (iOfst mod PAGE_SIZE) 0) as [Hal|Hnal]|]; cbn [andb].
  - replace (iOfst / PAGE_SIZE - 1 - iOfst / PAGE_SIZE + 1) with 0 by lia.
    cbn. split; [done|]. split; [done|]. intros [?|?]; lia.
  - replace (iOfst / PAGE_SIZE - iOfst / PAGE_SIZE + 1) with 1 by lia.
    change (seqZ (iOfst / PAGE_SIZE) 1) with [iOfst / PAGE_SIZE].
    destruct (read_pages_pages io cng p 0 (iOfst / PAGE_SIZE) (iOfst mod PAGE_SIZE)
                [iOfst / PAGE_SIZE] (start_state fresh t zBuf))
      as (k & Hk & Hlog & Hlast). cbv zeta in *.
    assert (Hout : ls_out (outcome_state
                     (read_pages io cng p 0 (iOfst / PAGE_SIZE) (iOfst mod PAGE_SIZE)
                        [iOfst / PAGE_SIZE] (start_state fresh t zBuf))) = zBuf).
    { cbn [read_pages]. rewrite read_page_cases. cbv zeta.
      rewrite Z.eqb_refl.
      rewrite (to_int_small (PAGE_SIZE - iOfst mod PAGE_SIZE)) by (consts; lia).
      cbn [start_state ls_written ls_out].
      change (to_int (0 - 0)) with 0.
      destruct (Z.ltb_spec (PAGE_SIZE - iOfst mod PAGE_SIZE) 0); [lia|].
      destruct (negb _); [done|]. destruct (negb _); [done|].
      cbn [outcome_state ls_out]. unfold memcpy, sub_bytes.
      change (Z.to_nat 0) with 0%nat. rewrite take_0. apply store_nothing. }
    cbn [finish rr_zBuf rr_log rr_rc]. split; [exact Hout|].
    split; [intros _ Hal; done|]. intros _.
    rewrite Hlog. cbn [start_state ls_log pages_read omap app].
    assert (k = 1%nat) as ->.
    { cbn in Hk. destruct (read_pages _ _ _ _ _ _ _ _); [by cbn in Hlast | lia]. }
    done.
  - assert (iOfst = 0) as -> by lia.
    change (0 / PAGE_SIZE) with 0. change (0 mod PAGE_SIZE) with 0.
    change (seqZ 0 (0 - 0 + 1)) with [0].
    destruct (read_pages_pages io cng p 0 0 0 [0] (start_state fresh t zBuf))
      as (k & Hk & Hlog & Hlast). cbv zeta in *.
    assert (Hout : ls_out (outcome_state
                     (read_pages io cng p 0 0 0 [0] (start_state fresh t zBuf)))
                   = zBuf).
    { cbn [read_pages]. rewrite read_page_cases. cbv zeta.
      change (0 =? 0) with true. cbn [start_state ls_written ls_out].
      change (to_int (PAGE_SIZE - 0) <? to_int (0 - 0)) with false.
      change (to_int (0 - 0)) with 0.
      destruct (negb _); [done|]. destruct (negb _); [done|].
      cbn [outcome_state ls_out]. unfold memcpy, sub_bytes.
      change (Z.to_nat 0) with 0%nat. rewrite take_0. apply store_nothing. }
    cbn [finish rr_zBuf rr_log rr_rc]. split; [exact Hout|].
    split; [intros ?; lia|]. intros _.
    rewrite Hlog. cbn [start_state ls_log pages_read omap app].
    assert (k = 1%nat) as ->.
    { cbn in Hk. destruct (read_pages _ _ _ _ _ _ _ _); [by cbn in Hlast | lia]. }
    done.
Qed.

End ZeroLength.

Lemma zero_length_read_witness :
  let r := wechat_read mem_io xor_cng zero_fresh (keyed_file small_file)
                       no_buffers (zeros 4) 0 0 in
  rr_zBuf r = zeros 4 ∧ pages_read (rr_log r) = [0 / PAGE_SIZE].
Proof.
  destruct (zero_length_read mem_io xor_cng zero_fresh (keyed_file small_file)
              no_buffers (zeros 4) 0 eq_refl ltac:(lia)) as (Hbuf & _ & Hpage).
  exact (conj Hbuf (Hpage (or_introl eq_refl))).
Defined.

Section FarOffsets.

Context {F : Type}.
Variable io : sqlite3_io_methods F.
Variable cng : CNG.
Variable fresh : bool -> nat -> Z.
Variable p : WeChatFile F.
Variables iAmt start_page start_offset : Z.

Lemma read_page_offsets (page_num : Z) (st : loop_state) :
  let o := read_page io cng p iAmt start_page start_offset page_num st in
  offsets_read (ls_log (outcome_state o))
  = offsets_read (ls_log st) ++ [to_int64 (page_num * PAGE_SIZE)].
Proof.
  cbv zeta. rewrite read_page_cases. cbv zeta.
  set (x := call_xRead io (real_file p) (ls_enc st) PAGE_SIZE
              (to_int64 (page_num * PAGE_SIZE))).
  set (d := decrypt_page cng (keys p) page_num x.2 (ls_dec st)).
  assert (Hd : offsets_read (pr_events d) = []).
  { subst d. unfold decrypt_page. destruct (keys p) as [ks|]; [|done].
    cbv zeta. destruct (aes_decrypt_cbc _ _ _ _ _ _ _) as [[ok e1] d1].
    by destruct ok. }
  unfold offsets_read in *.
  destruct (negb (x.1 =? SQLITE_OK)); cbn [outcome_state ls_log].
  - by rewrite omap_app.
  - destruct (negb (pr_ok d)); cbn [outcome_state ls_log];
      rewrite !omap_app, Hd, ?app_nil_r; done.
Qed.

Lemma read_pages_offsets (pages : list Z) (st : loop_state) :
  let o := read_pages io cng p iAmt start_page start_offset pages st in
  exists k,
    (k <= length pages)%nat
    ∧ (pages ≠ [] -> (0 < k)%nat)
    ∧ offsets_read (ls_log (outcome_state o))
      = offsets_read (ls_log st)
        ++ ((fun page_num => to_int64 (page_num * PAGE_SIZE)) <$> take k pages).
Proof.
  cbv zeta. revert st. induction pages as [|page_num rest IH]; intros st.
  - exists 0%nat. cbn. by rewrite app_nil_r.
  - cbn [read_pages].
    pose proof (read_page_offsets page_num st) as Hp. cbv zeta in Hp.
    destruct (read_page io cng p iAmt start_page start_offset page_num st)
      as [st'|rc st'].
    + destruct (IH st') as (k & Hk & _ & Hlog). exists (S k).
      split; [cbn; lia|]. split; [lia|].
      rewrite Hlog. cbn [outcome_state] in Hp. rewrite Hp.
      cbn [take fmap list_fmap]. by rewrite <- app_assoc.
    + exists 1%nat. split; [cbn; lia|]. split; [lia|].
      cbn [outcome_state] in *. by rewrite Hp.
Qed.

End FarOffsets.

Section Wrap.

Context {F : Type}.
Variable io : sqlite3_io_methods F.
Variable cng : CNG.
Variable fresh : bool -> nat -> Z.

(** X19: the page numbers are kept in an [int], so a request that lies
    between 2^43 and 2^44 (8 TiB and 16 TiB) is served from the wrong place:
    every read the platform is asked for is exactly 2^44 bytes below the page
    the request names, at a negative file offset, and at least one such read
    is made. *)
Theorem far_offsets_wrap (p : WeChatFile F) (t : tls) (zBuf : list Z)
    (iAmt iOfst : Z) :
  decrypt_cb p = true ->
  2 ^ 43 <= iOfst ->
  0 < iAmt < 2 ^ 31 ->
  iOfst + iAmt <= 2 ^ 44 ->
  let r := wechat_read io cng fresh p t zBuf iAmt iOfst in
  let pages := seqZ (iOfst / PAGE_SIZE)
                    ((iOfst + iAmt - 1) / PAGE_SIZE - iOfst / PAGE_SIZE + 1) in
  exists k,
    (0 < k)%nat
    ∧ offsets_read (rr_log r)
      = (fun page_num => page_num * PAGE_SIZE - 2 ^ 44) <$> take k pages
    ∧ Forall (fun ofs => ofs < 0) (offsets_read (rr_log r)).
Proof.
  intros Hcb Hlo Hamt Hhi r pages. subst r.
  rewrite wechat_read_paged by done. cbv zeta.
  pose proof (Z.div_mod iOfst PAGE_SIZE ltac:(consts; lia)) as Hdm.
  pose proof (Z.mod_pos_bound iOfst PAGE_SIZE ltac:(consts; lia)) as Hmb.
  pose proof (Z.div_mod (iOfst + iAmt - 1) PAGE_SIZE ltac:(consts; lia)) as Hdm'.
  pose proof (Z.mod_pos_bound (iOfst + iAmt - 1) PAGE_SIZE ltac:(consts; lia)) as Hmb'.
  assert (Hle : iOfst / PAGE_SIZE <= (iOfst + iAmt - 1) / PAGE_SIZE)
    by (apply Z.div_le_mono; consts; lia).
  assert (Hfp : first_page iOfst = iOfst / PAGE_SIZE - 2 ^ 32).
  { unfold first_page, to_int. rewrite Z.quot_div_nonneg by (consts; lia).
    replace (iOfst / PAGE_SIZE + 2 ^ 31)
      with ((iOfst / PAGE_SIZE - 2 ^ 31) + 1 * 2 ^ 32) by lia.
    rewrite Z.mod_add by lia. rewrite Z.mod_small; consts; lia. }
  assert (Hlp : last_page iAmt iOfst = (iOfst + iAmt - 1) / PAGE_SIZE - 2 ^ 32).
  { unfold last_page. rewrite (to_int64_small (iOfst + iAmt - 1)) by lia.
    unfold to_int. rewrite Z.quot_div_nonneg by (consts; lia).
    replace ((iOfst + iAmt - 1) / PAGE_SIZE + 2 ^ 31)
      with (((iOfst + iAmt - 1) / PAGE_SIZE - 2 ^ 31) + 1 * 2 ^ 32) by lia.
    rewrite Z.mod_add by lia. rewrite Z.mod_small; consts; lia. }
  rewrite Hfp, Hlp. unfold page_range.
  replace ((iOfst + iAmt - 1) / PAGE_SIZE - 2 ^ 32 - (iOfst / PAGE_SIZE - 2 ^ 32) + 1)
    with ((iOfst + iAmt - 1) / PAGE_SIZE - iOfst / PAGE_SIZE + 1) by lia.
  set (n := (iOfst + iAmt - 1) / PAGE_SIZE - iOfst / PAGE_SIZE + 1) in *.
  destruct (read_pages_offsets io cng p iAmt (iOfst / PAGE_SIZE - 2 ^ 32)
              (first_skip iOfst) (seqZ (iOfst / PAGE_SIZE - 2 ^ 32) n)
              (start_state fresh t zBuf)) as (k & Hk & Hpos & Hlog).
  cbv zeta in Hlog.
  assert (Hall : offsets_read (ls_log (outcome_state
                   (read_pages io cng p iAmt (iOfst / PAGE_SIZE - 2 ^ 32)
                      (first_skip iOfst) (seqZ (iOfst / PAGE_SIZE - 2 ^ 32) n)
                      (start_state fresh t zBuf))))
                 = (fun page_num => page_num * PAGE_SIZE - 2 ^ 44) <$> take k pages).
  { rewrite Hlog. cbn [start_state ls_log offsets_read omap app].
    replace (iOfst / PAGE_SIZE - 2 ^ 32) with (- 2 ^ 32 + iOfst / PAGE_SIZE) by lia.
    rewrite <- fmap_add_seqZ. fold pages. rewrite <- fmap_take, <- list_fmap_compose.
    apply list_fmap_ext. intros i x Hx. cbn.
    apply lookup_take_Some in Hx as [Hx _]. subst pages.
    apply lookup_seqZ in Hx as [-> Hi].
    rewrite to_int64_small; consts; lia. }
  exists k. split.
  { apply Hpos. intros Hnil. apply (f_equal length) in Hnil.
    rewrite length_seqZ in Hnil. cbn in Hnil. lia. }
  assert (Hfin : forall rc st, offsets_read (rr_log (finish rc st))
                               = offsets_read (ls_log st)) by done.
  rewrite Hfin, Hall. split; [done|].
  apply Forall_fmap, Forall_forall. intros x Hx. cbn.
  apply elem_of_take in Hx as (i & Hx & _). subst pages.
  apply lookup_seqZ in Hx as [-> Hi]. consts. lia.
Qed.

End Wrap.

Lemma far_offsets_wrap_witness :
  let r := wechat_read mem_io xor_cng zero_fresh (keyed_file two_pages)
                       no_buffers (zeros 16) 16 (2 ^ 43) in
  exists k,
    (0 < k)%nat
    ∧ offsets_read (rr_log r)
      = (fun page_num => page_num * PAGE_SIZE - 2 ^ 44)
          <$> take k (seqZ (2 ^ 43 / PAGE_SIZE)
                           ((2 ^ 43 + 16 - 1) / PAGE_SIZE - 2 ^ 43 / PAGE_SIZE + 1))
    ∧ Forall (fun ofs => ofs < 0) (offsets_read (rr_log r)).
Proof.
  apply (far_offsets_wrap mem_io xor_cng zero_fresh (keyed_file two_pages)
           no_buffers (zeros 16) 16 (2 ^ 43));
    [reflexivity | lia | lia | lia].
Defined.

(** ** The salt of page 0 *)

Lemma sub_bytes_skip (a b : list Z) (off len : Z) :
  Z.of_nat (length a) <= off ->
  sub_bytes (a ++ b) off len = sub_bytes b (off - Z.of_nat (length a)) len.
Proof.
  intros H. unfold sub_bytes. rewrite drop_app_ge by lia.
  do 2 f_equal. lia.
Qed.

Lemma store_skip (a b : list Z) (off : Z) (data : list Z) :
  Z.of_nat (length a) <= off ->
  store (a ++ b) off data = a ++ store b (off - Z.of_nat (length a)) data.
Proof.
  intros H. unfold store. rewrite take_app_ge, drop_app_ge by lia.
  rewrite <- app_assoc. do 3 f_equal; [f_equal; lia|f_equal; lia].
Qed.

Section Salt.

Variable cng : CNG.

(** X20: the first [SALT_SIZE] bytes of page 0 as stored in the file take no
    part in its decryption: two encrypted pages that differ only there give
    the same result and the same decrypted page, and the encrypted buffer
    keeps the bytes it had there. *)
Theorem salt_is_not_decrypted (ks : EncryptionKeys) (salt salt' rest dec : list Z) :
  length salt = Z.to_nat SALT_SIZE ->
  length salt' = Z.to_nat SALT_SIZE ->
  let d := decrypt_page cng (Some ks) 0 (salt ++ rest) dec in
  let d' := decrypt_page cng (Some ks) 0 (salt' ++ rest) dec in
  pr_ok d = pr_ok d'
  ∧ pr_dec d = pr_dec d'
  ∧ exists rest', pr_enc d = salt ++ rest' ∧ pr_enc d' = salt' ++ rest'.
Proof.
  intros Hs Hs'. cbv zeta. unfold decrypt_page, aes_decrypt_cbc.
  change (0 =? 0) with true. cbv iota.
  destruct (negb (BCryptOpenAlgorithmProvider cng)); [by eauto|].
  destruct (negb (BCryptSetProperty cng)); [by eauto|].
  destruct (negb (BCryptGenerateSymmetricKey cng _)); [by eauto|].
  assert (Hl : Z.of_nat (length salt) = SALT_SIZE) by (rewrite Hs; consts; lia).
  assert (Hl' : Z.of_nat (length salt') = SALT_SIZE) by (rewrite Hs'; consts; lia).
  rewrite !(sub_bytes_skip salt), !(sub_bytes_skip salt') by (consts; lia).
  rewrite Hl, Hl'.
  destruct (BCryptDecrypt cng _ _ _) as [[status output] iv_after].
  rewrite (store_skip salt), (store_skip salt') by (consts; lia).
  rewrite Hl, Hl'.
  destruct status; cbn [negb pr_ok pr_dec pr_enc]; [|by eauto].
  unfold memcpy. rewrite (sub_bytes_skip salt), (sub_bytes_skip salt') by (consts; lia).
  rewrite Hl, Hl'. by eauto.
Qed.

End Salt.

Lemma salt_is_not_decrypted_witness :
  let d := decrypt_page xor_cng (Some sample_keys) 0 (zeros 16 ++ drop 16 page0)
                        (zeros 4096) in
  let d' := decrypt_page xor_cng (Some sample_keys) 0 (take 16 page0 ++ drop 16 page0)
                         (zeros 4096) in
  pr_ok d = pr_ok d'
  ∧ pr_dec d = pr_dec d'
  ∧ exists rest', pr_enc d = zeros 16 ++ rest'
                  ∧ pr_enc d' = take 16 page0 ++ rest'.
Proof.
  apply (salt_is_not_decrypted xor_cng sample_keys (zeros 16) (take 16 page0)
           (drop 16 page0) (zeros 4096)); reflexivity.
Defined.
